(** * Multi-Client Chat Server: registry, message routing, confidentiality helper

    A shallow embedding of [src/server.py] (class [ChatServer]) and of
    [src/chat_project/encrypt.py].

    The server object is a record of its fields; every method is a function
    in a small monad that threads the server state, carries Python
    exceptions, and records when the running thread blocks for ever.  The
    sockets are not part of the program: they are identified by a number,
    the environment decides which writes fail, and every write and close is
    appended to a trace.  Calls to [logging] are left out, and so is the
    [addr] argument of [handle_client], which only feeds them.  Of [start]
    the file has one turn of the accept loop: the listening socket and the
    threads it starts are outside the model.

    Part I is the embedding, Part II the vocabulary of the statements,
    Part III the lemmas and theorems, and the last part further properties
    of the same methods. *)

From Stdlib Require Import String Ascii List ZArith Bool Lia Arith.
From Stdlib Require Import DecimalString.
Import ListNotations.

Open Scope string_scope.
Open Scope list_scope.

(** * Part I: the program *)

(** ** Python strings *)

Module PyStr.

(** [s.startswith(p)] *)
Definition startswith (p s : string) : bool := String.prefix p s.

(** First occurrence of the one-character separator [" "]: the text before
    it and the text after it. *)
Fixpoint break_space (s : string) : option (string * string) :=
  match s with
  | EmptyString => None
  | String c r =>
      if Ascii.eqb c " "%char then Some (EmptyString, r)
      else match break_space r with
           | None => None
           | Some (a, b) => Some (String c a, b)
           end
  end.

(** [s.split(" ", maxsplit)] *)
Fixpoint split_space (maxsplit : nat) (s : string) : list string :=
  match maxsplit with
  | O => [s]
  | S n =>
      match break_space s with
      | None => [s]
      | Some (a, b) => a :: split_space n b
      end
  end.

(** Characters removed by [str.strip()] (the ASCII ones). *)
Definition is_space (c : ascii) : bool :=
  let n := nat_of_ascii c in
  (Nat.leb 9 n && Nat.leb n 13) || (Nat.leb 28 n && Nat.leb n 32).

Fixpoint lstrip (s : string) : string :=
  match s with
  | EmptyString => EmptyString
  | String c r => if is_space c then lstrip r else s
  end.

Fixpoint rstrip (s : string) : string :=
  match s with
  | EmptyString => EmptyString
  | String c r =>
      match rstrip r with
      | EmptyString => if is_space c then EmptyString else String c EmptyString
      | r' => String c r'
      end
  end.

(** [s.strip()] *)
Definition strip (s : string) : string := rstrip (lstrip s).

(** [sep.join(l)] *)
Definition join (sep : string) (l : list string) : string := String.concat sep l.

(** [str(n)] for a length. *)
Definition of_nat (n : nat) : string := NilEmpty.string_of_uint (Nat.to_uint n).

(** Truth value of a string: [if s:] / [if not s:]. *)
Definition truthy (s : string) : bool :=
  match s with EmptyString => false | _ => true end.

End PyStr.

(** ** Python dictionaries keyed by strings

    A [dict] keeps its keys in insertion order, which the fan-out and the
    [/users] reply follow, so it is an association list; uniqueness of the
    keys is an invariant of the operations ([wf]), not of the type. *)

Module Dict.

Section Ops.

Context {V : Type}.

Definition t := list (string * V).

(** [k in d] *)
Fixpoint contains (k : string) (d : t) : bool :=
  match d with
  | [] => false
  | (k', _) :: r => if String.eqb k k' then true else contains k r
  end.

(** [d[k]], [None] standing for [KeyError]. *)
Fixpoint get (k : string) (d : t) : option V :=
  match d with
  | [] => None
  | (k', v) :: r => if String.eqb k k' then Some v else get k r
  end.

(** [d[k] = v]: overwrite in place, or append a new key. *)
Fixpoint set (k : string) (v : V) (d : t) : t :=
  match d with
  | [] => [(k, v)]
  | (k', v') :: r =>
      if String.eqb k k' then (k', v) :: r else (k', v') :: set k v r
  end.

(** [del d[k]] (for a key that is present). *)
Fixpoint del (k : string) (d : t) : t :=
  match d with
  | [] => []
  | (k', v') :: r => if String.eqb k k' then r else (k', v') :: del k r
  end.

(** [list(d.keys())] *)
Definition keys (d : t) : list string := map fst d.

(** [d.items()] *)
Definition items (d : t) : list (string * V) := d.

(** The representation invariant of a [dict]: no key twice. *)
Definition wf (d : t) : Prop := NoDup (keys d).

End Ops.

Arguments t : clear implicits.

End Dict.

(** ** Sockets, the environment and the server state *)

Definition socket := nat.

(** What the server did to its sockets.  A write records whether it went
    through and whether [clients_lock] was held by the writing thread. *)
Inductive event : Type :=
| EvSend (s : socket) (msg : string) (ok : bool) (locked : bool)
| EvClose (s : socket).

(** Python exceptions the server can meet. *)
Inductive exn : Type :=
| ValueError (msg : string)
| KeyError (key : string)
| OSError
| SocketTimeout
| ConnectionResetError.

(** Why a thread never comes back. *)
Inductive wait : Type :=
| OnLock    (** acquiring [clients_lock], which is never released *)
| OnRecv.   (** reading from a peer that sends nothing more *)

(** The fields of [ChatServer], and around them the sockets' state. *)
Record World : Type := mkWorld {
  clients : Dict.t socket;
  lock_held : bool;              (** [clients_lock], a [threading.Lock] *)
  active_connections : Z;
  connection_count : Z;
  max_concurrent : Z;
  closed : list socket;          (** sockets on which [close()] was called *)
  net_fails : nat -> socket -> bool;
                                 (** environment: does the write made after
                                     [n] earlier events fail on this socket *)
  trace : list event
}.

(** [ChatServer.__init__] *)
Definition init (net : nat -> socket -> bool) : World :=
  mkWorld [] false 0 0 0 [] net [].

Definition set_clients (d : Dict.t socket) (w : World) : World :=
  mkWorld d (lock_held w) (active_connections w) (connection_count w)
          (max_concurrent w) (closed w) (net_fails w) (trace w).

Definition set_lock (b : bool) (w : World) : World :=
  mkWorld (clients w) b (active_connections w) (connection_count w)
          (max_concurrent w) (closed w) (net_fails w) (trace w).

Definition set_active (n : Z) (w : World) : World :=
  mkWorld (clients w) (lock_held w) n (connection_count w)
          (max_concurrent w) (closed w) (net_fails w) (trace w).

Definition set_count (n : Z) (w : World) : World :=
  mkWorld (clients w) (lock_held w) (active_connections w) n
          (max_concurrent w) (closed w) (net_fails w) (trace w).

Definition set_max (n : Z) (w : World) : World :=
  mkWorld (clients w) (lock_held w) (active_connections w) (connection_count w)
          n (closed w) (net_fails w) (trace w).

Definition log_event (e : event) (w : World) : World :=
  mkWorld (clients w) (lock_held w) (active_connections w) (connection_count w)
          (max_concurrent w) (closed w) (net_fails w) (trace w ++ [e]).

Definition mark_closed (s : socket) (w : World) : World :=
  mkWorld (clients w) (lock_held w) (active_connections w) (connection_count w)
          (max_concurrent w) (s :: closed w) (net_fails w) (trace w).

(** ** The monad of server code *)

Inductive result (A : Type) : Type :=
| Ret (a : A) (w : World)
| Raise (e : exn) (w : World)
| Blocked (why : wait) (w : World).

Arguments Ret {A} a w.
Arguments Raise {A} e w.
Arguments Blocked {A} why w.

Definition world_of {A} (r : result A) : World :=
  match r with
  | Ret _ w => w
  | Raise _ w => w
  | Blocked _ w => w
  end.

Definition returned {A} (r : result A) : bool :=
  match r with Ret _ _ => true | _ => false end.

Definition raised {A} (r : result A) : bool :=
  match r with Raise _ _ => true | _ => false end.

Definition M (A : Type) : Type := World -> result A.

Definition ret {A} (a : A) : M A := fun w => Ret a w.

Definition bind {A B} (m : M A) (k : A -> M B) : M B :=
  fun w =>
    match m w with
    | Ret a w' => k a w'
    | Raise e w' => Raise e w'
    | Blocked y w' => Blocked y w'
    end.

Definition raise {A} (e : exn) : M A := fun w => Raise e w.

Definition modify (f : World -> World) : M unit := fun w => Ret tt (f w).

Definition gets {A} (f : World -> A) : M A := fun w => Ret (f w) w.

Declare Scope py_scope.
Delimit Scope py_scope with py.
Notation "x <- m ;; k" := (bind m (fun x => k))
  (at level 61, m at next level, right associativity) : py_scope.
Notation "m ;; k" := (bind m (fun _ => k))
  (at level 61, right associativity) : py_scope.
Open Scope py_scope.

(** [try: body  except <handled>: handler]; an exception the clause does not
    name goes on. *)
Definition try_except {A} (body : M A) (handled : exn -> bool)
           (handler : exn -> M A) : M A :=
  fun w =>
    match body w with
    | Raise e w' => if handled e then handler e w' else Raise e w'
    | r => r
    end.

(** A bare [except:] and [except Exception:] catch every exception above. *)
Definition any_exn (_ : exn) : bool := true.

(** [try: body  finally: fin] *)
Definition try_finally {A} (body : M A) (fin : M unit) : M A :=
  fun w =>
    match body w with
    | Ret a w' => (fin ;; ret a) w'
    | Raise e w' => (fin ;; raise e) w'
    | Blocked y w' => Blocked y w'
    end.

(** [with self.clients_lock: body].  The lock is a plain [threading.Lock],
    not reentrant: acquiring it while it is held, by this thread or by one
    that never releases it, blocks for ever.  Leaving the block, also by an
    exception, releases it. *)
Definition with_lock {A} (body : M A) : M A :=
  fun w =>
    if lock_held w then Blocked OnLock w
    else match body (set_lock true w) with
         | Ret a w' => Ret a (set_lock false w')
         | Raise e w' => Raise e (set_lock false w')
         | Blocked y w' => Blocked y w'
         end.

(** [for x in l: body x] *)
Fixpoint for_each {A} (l : list A) (body : A -> M unit) : M unit :=
  match l with
  | [] => ret tt
  | x :: r => body x ;; for_each r body
  end.

(** ** Socket operations *)

(** A write goes through when the socket was not closed by the server and
    the environment does not fail it. *)
Definition send_ok (s : socket) (w : World) : bool :=
  negb (existsb (Nat.eqb s) (closed w)) && negb (net_fails w (length (trace w)) s).

(** [sock.send(msg.encode())] *)
Definition send (s : socket) (msg : string) : M unit :=
  fun w =>
    let ok := send_ok s w in
    let w' := log_event (EvSend s msg ok (lock_held w)) w in
    if ok then Ret tt w' else Raise OSError w'.

(** [sock.close()] *)
Definition close (s : socket) : M unit :=
  fun w => Ret tt (log_event (EvClose s) (mark_closed s w)).

(** [self.clients[username]] *)
Definition client_of (username : string) : M socket :=
  fun w =>
    match Dict.get username (clients w) with
    | Some s => Ret s w
    | None => Raise (KeyError username) w
    end.

(** ** ChatServer: connection management *)

Definition add_client (username : string) (client_socket : socket) : M bool :=
  with_lock
    (present <- gets (fun w => Dict.contains username (clients w)) ;;
     if present then ret false
     else
       modify (fun w => set_clients (Dict.set username client_socket (clients w)) w) ;;
       modify (fun w => set_active (active_connections w + 1) w) ;;
       modify (fun w => set_count (connection_count w + 1) w) ;;
       modify (fun w => if (active_connections w >? max_concurrent w)%Z
                        then set_max (active_connections w) w else w) ;;
       ret true).

(** [remove_client] and [broadcast] call each other: removal with
    [notify=True] ends in a broadcast, and a broadcast removes the
    recipients whose write failed, with [notify=False].  Each body is written
    over the method it calls, and the knot is tied below. *)
Section Bodies.

Variable broadcast : string -> option string -> M unit.
Variable remove_client : string -> bool -> M unit.

Definition remove_client_body (username : string) (notify : bool) : M unit :=
  with_lock
    (present <- gets (fun w => Dict.contains username (clients w)) ;;
     if present then
       try_except
         ((if notify then
             try_except
               (s <- client_of username ;; send s "[SERVER] Connection closed")
               any_exn (fun _ => ret tt)
           else ret tt) ;;
          s <- client_of username ;;
          close s)
         any_exn (fun _ => ret tt) ;;
       modify (fun w => set_clients (Dict.del username (clients w)) w) ;;
       modify (fun w => set_active (active_connections w - 1) w) ;;
       if notify then
         broadcast ("[SERVER] " ++ username ++ " left the chat") (Some username)
       else ret tt
     else ret tt).

(** [username != sender], for [sender: Optional[str]]. *)
Definition differs (username : string) (sender : option string) : bool :=
  match sender with
  | None => true
  | Some s => negb (String.eqb username s)
  end.

(** The first loop of [broadcast]; [disconnected] is the list it fills. *)
Fixpoint fan_out (message : string) (sender : option string)
         (items : list (string * socket)) (disconnected : list string)
  : M (list string) :=
  match items with
  | [] => ret disconnected
  | (username, client_socket) :: rest =>
      if differs username sender then
        d <- try_except
               (send client_socket message ;; ret disconnected)
               any_exn (fun _ => ret (disconnected ++ [username])) ;;
        fan_out message sender rest d
      else fan_out message sender rest disconnected
  end.

Definition broadcast_body (message : string) (sender : option string) : M unit :=
  with_lock
    (items <- gets (fun w => Dict.items (clients w)) ;;
     disconnected <- fan_out message sender items [] ;;
     for_each disconnected (fun username => remove_client username false)).

End Bodies.

(** With [notify=False] removal calls nothing, so the recursion stops after
    [remove_client -> broadcast -> remove_client]: the removal that
    [broadcast] calls is given a broadcast it never reaches (lemmas
    [remove_client_quiet] and [broadcast_unfold] of Part III). *)
Definition unreached : string -> option string -> M unit := fun _ _ => ret tt.

Definition broadcast (message : string) (sender : option string) : M unit :=
  broadcast_body (remove_client_body unreached) message sender.

Definition remove_client (username : string) (notify : bool) : M unit :=
  remove_client_body broadcast username notify.

Definition get_online_users : M (list string) :=
  with_lock (gets (fun w => Dict.keys (clients w))).

(** ** ChatServer: message routing *)

Definition private_message (target_user message sender : string) : M unit :=
  with_lock
    (present <- gets (fun w => Dict.contains target_user (clients w)) ;;
     if present then
       try_except
         (t <- client_of target_user ;;
          send t ("[PRIVATE] " ++ sender ++ ": " ++ message) ;;
          s <- client_of sender ;;
          send s ("[SENT] Private message to " ++ target_user))
         any_exn
         (fun _ =>
            try_except
              (s <- client_of sender ;;
               send s ("[ERROR] Could not deliver message to " ++ target_user))
              any_exn (fun _ => ret tt))
     else
       try_except
         (s <- client_of sender ;;
          send s ("[ERROR] User '" ++ target_user ++ "' is not online"))
         any_exn (fun _ => ret tt)).

Definition usage_error : string := "[ERROR] Usage: /private <username> <message>".

Definition nl : string := String (ascii_of_nat 10) EmptyString.

(** The text of [help_text], which is also that of [commands] in
    [handle_client]. *)
Definition help_text : string :=
  nl ++ "--- Available Commands ---" ++ nl ++
  "/private <username> <message> - Send private message" ++ nl ++
  "/users - List online users" ++ nl ++
  "/help - Show this help" ++ nl ++
  "Type normally for group chat" ++ nl ++
  "--------------------------" ++ nl.

Definition users_response (users : list string) : string :=
  "[SERVER] Online users (" ++ PyStr.of_nat (length users) ++ "): "
    ++ PyStr.join ", " users.

Definition route_message (username message : string) : M unit :=
  if PyStr.startswith "/private" message then
    let parts := PyStr.split_space 2 message in
    if Nat.leb 3 (length parts) then
      match parts with
      | [_; target; msg_content] => private_message target msg_content username
      | _ => raise (ValueError "too many values to unpack")
      end
    else
      s <- client_of username ;; send s usage_error
  else if String.eqb message "/users" then
    users <- get_online_users ;;
    s <- client_of username ;;
    send s (users_response users)
  else if String.eqb message "/help" then
    s <- client_of username ;; send s help_text
  else
    broadcast (username ++ ": " ++ message) (Some username).

(** ** ChatServer: the per-connection handler *)

(** What one [client_socket.recv(1024).decode()] gives. *)
Inductive recv_result : Type :=
| RecvData (raw : string)
| RecvTimeout
| RecvReset
| RecvFailed.

Definition recv (r : recv_result) : M string :=
  match r with
  | RecvData raw => ret raw
  | RecvTimeout => raise SocketTimeout
  | RecvReset => raise ConnectionResetError
  | RecvFailed => raise OSError
  end.

(** One turn of the [while True] loop; the answer is whether the loop goes
    on ([false] is [break]). *)
Definition loop_turn (username : string) (client_socket : socket)
           (r : recv_result) : M bool :=
  try_except
    (raw <- recv r ;;
     let msg := PyStr.strip raw in
     if negb (PyStr.truthy msg) then ret false
     else route_message username msg ;; ret true)
    any_exn
    (fun e =>
       match e with
       | SocketTimeout =>
           try_except (send client_socket "" ;; ret true)
                      any_exn (fun _ => ret false)
       | ConnectionResetError => ret false
       | _ => ret false
       end).

(** The loop over what the peer sends; when the peer sends nothing more and
    does not close either, the thread stays in [recv]. *)
Fixpoint message_loop (username : string) (client_socket : socket)
         (inputs : list recv_result) : M unit :=
  match inputs with
  | [] => fun w => Blocked OnRecv w
  | r :: rest =>
      continue <- loop_turn username client_socket r ;;
      if continue then message_loop username client_socket rest else ret tt
  end.

Definition username_taken : string :=
  "[ERROR] Username already taken. Please try another.".

(** [handle_client(client_socket, addr)]; [handshake] is the first read and
    [inputs] the later ones. *)
Definition handle_client (client_socket : socket) (handshake : recv_result)
           (inputs : list recv_result) : M unit :=
  (* the local [username] as the [finally] clause sees it *)
  let username_at_exit : option string :=
    match handshake with
    | RecvData raw => Some (PyStr.strip raw)
    | _ => None
    end in
  try_finally
    (try_except
       (raw <- recv handshake ;;
        let username := PyStr.strip raw in
        if negb (PyStr.truthy username) then
          raise (ValueError "Empty username received")
        else
          added <- add_client username client_socket ;;
          if negb added then
            send client_socket username_taken ;;
            close client_socket
          else
            send client_socket ("[SERVER] Welcome " ++ username ++ "! You are connected.") ;;
            broadcast ("[SERVER] " ++ username ++ " joined the chat") (Some username) ;;
            send client_socket help_text ;;
            message_loop username client_socket inputs)
       any_exn (fun _ => ret tt))
    (match username_at_exit with
     | Some username =>
         if PyStr.truthy username then remove_client username true
         else try_except (close client_socket) any_exn (fun _ => ret tt)
     | None => try_except (close client_socket) any_exn (fun _ => ret tt)
     end).

(** ** encrypt.py *)

Definition bytes := list Byte.byte.

(** [KEY = b"this_is_16_bytes"] *)
Definition KEY : bytes := list_byte_of_string "this_is_16_bytes".

(** The cipher and the codec are not code of the repository: AES in EAX
    mode ([encrypt_and_digest], [decrypt_and_verify], each under a key and a
    nonce) and the UTF-8 codec.  [string] stands for text that has an
    encoding; a failed tag check or decoding is [None].  The nonce that
    [AES.new(KEY, AES.MODE_EAX)] draws is an argument. *)
Section Confidentiality.

Variable utf8_encode : string -> bytes.
Variable utf8_decode : bytes -> option string.
Variable encrypt_and_digest : bytes -> bytes -> bytes -> bytes * bytes.
Variable decrypt_and_verify : bytes -> bytes -> bytes -> bytes -> option bytes.

Definition encrypt_message (nonce : bytes) (message : string) : bytes :=
  let '(ciphertext, tag) := encrypt_and_digest KEY nonce (utf8_encode message) in
  nonce ++ tag ++ ciphertext.

Definition decrypt_message (data : bytes) : option string :=
  let nonce := firstn 16 data in
  let tag := firstn 16 (skipn 16 data) in
  let ciphertext := skipn 32 data in
  match decrypt_and_verify KEY nonce ciphertext tag with
  | Some plaintext => utf8_decode plaintext
  | None => None
  end.

End Confidentiality.

(** ** ChatServer: the acceptor *)

Definition MAX_CLIENTS : Z := 100.

Definition server_full : string :=
  "[ERROR] Server is full. Please try again later.".

(** One turn of the accept loop of [start], for a connection that [accept]
    returned; the answer is whether a handler thread is started for it. *)
Definition start_turn (client_socket : socket) : M bool :=
  try_except
    (active <- gets active_connections ;;
     if (active >=? MAX_CLIENTS)%Z then
       send client_socket server_full ;;
       close client_socket ;;
       ret false
     else ret true)
    any_exn (fun _ => ret false).

Definition shutting_down : string := "[SERVER] Server is shutting down".

(** The body of the loop of [shutdown]: the notice, then the close, and
    whatever is raised is dropped. *)
Definition shutdown_client (client_socket : socket) : M unit :=
  try_except
    (send client_socket shutting_down ;; close client_socket)
    any_exn (fun _ => ret tt).

(** [shutdown(server_socket)] *)
Definition shutdown (server_socket : socket) : M unit :=
  with_lock
    (items <- gets (fun w => Dict.items (clients w)) ;;
     for_each items (fun item => shutdown_client (snd item))) ;;
  close server_socket.

(** * Part II: the vocabulary of the statements *)

(** ** Traces *)

Definition add_events (evs : list event) (w : World) : World :=
  mkWorld (clients w) (lock_held w) (active_connections w) (connection_count w)
          (max_concurrent w) (closed w) (net_fails w) (trace w ++ evs).

(** The events a call appends to the trace. *)
Definition emitted {A} (m : M A) (w : World) : list event :=
  skipn (length (trace w)) (trace (world_of (m w))).

Definition ev_ok (e : event) : bool :=
  match e with EvSend _ _ ok _ => ok | EvClose _ => true end.

(** A write, whatever its outcome: the socket, the text, and whether the
    lock was held. *)
Definition write_of (e : event) : option (socket * string * bool) :=
  match e with
  | EvSend s msg _ locked => Some (s, msg, locked)
  | EvClose _ => None
  end.

(** Every write among the events was made with [clients_lock] in the given
    state. *)
Definition writes_locked (locked : bool) (evs : list event) : Prop :=
  forall s msg ok l, In (EvSend s msg ok l) evs -> l = locked.

(** One write of [text] to [s], made outside the lock, and nothing else;
    the call raises when the write fails. *)
Definition reply_only (s : socket) (text : string) (w : World) : result unit :=
  let w' := add_events [EvSend s text (send_ok s w) false] w in
  if send_ok s w then Ret tt w' else Raise OSError w'.

(** ** The registry *)

(** The registry proper: the map and the three counters. *)
Definition same_registry (w w' : World) : Prop :=
  clients w' = clients w /\
  active_connections w' = active_connections w /\
  connection_count w' = connection_count w /\
  max_concurrent w' = max_concurrent w.

Inductive registry_op : Type :=
| Register (username : string) (s : socket)
| Remove (username : string) (notify : bool).

(** The state a call leaves, however it ends. *)
Definition apply_op (o : registry_op) (w : World) : World :=
  match o with
  | Register username s => world_of (add_client username s w)
  | Remove username notify => world_of (remove_client username notify w)
  end.

Definition run_ops (ops : list registry_op) (w : World) : World :=
  fold_left (fun w o => apply_op o w) ops w.

Definition registry_inv (w : World) : Prop :=
  active_connections w = Z.of_nat (length (clients w)) /\
  NoDup (Dict.keys (clients w)).

(** The state [add_client] leaves when the name is free. *)
Definition registered (username : string) (s : socket) (w : World) : World :=
  let active := (active_connections w + 1)%Z in
  mkWorld (clients w ++ [(username, s)]) (lock_held w) active
          (connection_count w + 1)
          (if (active >? max_concurrent w)%Z then active else max_concurrent w)
          (closed w) (net_fails w) (trace w).

(** The socket of a removed client after the farewell and the close. *)
Definition farewell (s : socket) (notify : bool) (w : World) : World :=
  let w1 :=
    if notify
    then log_event (EvSend s "[SERVER] Connection closed" (send_ok s w) true) w
    else w in
  log_event (EvClose s) (mark_closed s w1).

(** The state [remove_client] reaches for a registered name, the lock still
    held. *)
Definition removed (username : string) (s : socket) (notify : bool)
           (w : World) : World :=
  let w1 := farewell s notify (set_lock true w) in
  set_active (active_connections w - 1)
             (set_clients (Dict.del username (clients w)) w1).

(** The newcomer's socket after a rejected handshake: the error line, then
    the close, which is skipped when the write raised. *)
Definition rejected (client_socket : socket) (w : World) : World :=
  let ok := send_ok client_socket w in
  let w1 := log_event (EvSend client_socket username_taken ok false) w in
  if ok then log_event (EvClose client_socket) (mark_closed client_socket w1)
  else w1.

(** ** Broadcast *)

(** The entries a broadcast writes to, in the order of the dictionary. *)
Definition recipients (sender : option string) (d : Dict.t socket)
  : list (string * socket) :=
  filter (fun p => differs (fst p) sender) d.

(** The writes of the fan-out, one per recipient. *)
Fixpoint fan_out_events (message : string) (recs : list (string * socket))
         (w : World) : list event :=
  match recs with
  | [] => []
  | (_, s) :: r =>
      let e := EvSend s message (send_ok s w) (lock_held w) in
      e :: fan_out_events message r (log_event e w)
  end.

(** The recipients whose write failed. *)
Fixpoint failed (message : string) (recs : list (string * socket))
         (w : World) : list string :=
  match recs with
  | [] => []
  | (u, s) :: r =>
      let ok := send_ok s w in
      let w' := log_event (EvSend s message ok (lock_held w)) w in
      if ok then failed message r w' else u :: failed message r w'
  end.

(** ** Concrete servers and environments *)

Definition quiet_net : nat -> socket -> bool := fun _ _ => false.

(** A server with [A] on socket 1 and [B] on socket 2. *)
Definition two_clients : World :=
  mkWorld [("A", 1); ("B", 2)] false 2 2 2 [] quiet_net [].

(** The same with a dead peer behind socket 2. *)
Definition dead_socket_2 : nat -> socket -> bool := fun _ s => Nat.eqb s 2.

Definition two_clients_B_dead : World :=
  mkWorld [("A", 1); ("B", 2)] false 2 2 2 [] dead_socket_2 [].

(** A cipher that is correct and nothing more: the ciphertext is the
    plaintext and the tag sixteen zero bytes. *)
Definition toy_encrypt (key nonce plaintext : bytes) : bytes * bytes :=
  (plaintext, repeat Byte.x00 16).

Definition toy_decrypt (key nonce ciphertext tag : bytes) : option bytes :=
  Some ciphertext.

(** Byte strings read as text, one character per byte. *)
Definition toy_decode (b : bytes) : option string := Some (string_of_list_byte b).

(** ** Vocabulary of the further properties *)

(** The network lets every write through and no socket was closed. *)
Definition healthy (w : World) : Prop :=
  closed w = [] /\ forall n s, net_fails w n s = false.

(** A write counts for a socket. *)
Definition ev_socket (e : event) : socket :=
  match e with EvSend s _ _ _ => s | EvClose s => s end.

Definition is_write (e : event) : bool :=
  match e with EvSend _ _ _ _ => true | EvClose _ => false end.

(** Where a call leaves the lock: released when the call came back or
    waits for input, held when the call waits for the lock itself. *)
Definition lock_settled {A} (r : result A) : Prop :=
  match r with
  | Ret _ w' => lock_held w' = false
  | Raise _ w' => lock_held w' = false
  | Blocked OnRecv w' => lock_held w' = false
  | Blocked OnLock w' => lock_held w' = true
  end.

(** A call that left the registry and the closed sockets as they were. *)
Definition settled {A} (w : World) (r : result A) : Prop :=
  same_registry w (world_of r) /\
  closed (world_of r) = closed w /\
  lock_settled r.

(** No character of the string is a space. *)
Fixpoint no_space (s : string) : bool :=
  match s with
  | EmptyString => true
  | String c r => negb (Ascii.eqb c " "%char) && no_space r
  end.

(** The state after more sockets were closed and more events recorded. *)
Definition with_sockets (cl : list socket) (evs : list event) (w : World) : World :=
  mkWorld (clients w) (lock_held w) (active_connections w) (connection_count w)
          (max_concurrent w) (cl ++ closed w) (net_fails w) (trace w ++ evs).

(** The registrations of a list of names with their sockets. *)
Definition registrations (regs : list (string * socket)) : list registry_op :=
  map (fun p => Register (fst p) (snd p)) regs.

(** The counters of the statistics. *)
Definition counters_inv (w : World) : Prop :=
  (0 <= active_connections w)%Z /\
  (active_connections w <= max_concurrent w)%Z /\
  (max_concurrent w <= connection_count w)%Z /\
  active_connections w = Z.of_nat (length (clients w)).

(** The call did not end in an exception. *)
Definition no_raise {A} (r : result A) : Prop :=
  match r with Raise _ _ => False | _ => True end.


Ltac case_if :=
  match goal with
  | |- context [if ?b then _ else _] => destruct b eqn:?
  | |- context [match Dict.get ?k ?d with _ => _ end] => destruct (Dict.get k d) eqn:?
  end.

(** * Part III: properties *)

#[local] Arguments broadcast : simpl never.
#[local] Arguments remove_client : simpl never.
#[local] Arguments add_client : simpl never.

(** ** The embedding on the scenarios of the specification *)

Example split_private_line :
  PyStr.split_space 2 "/private bob hi there" = ["/private"; "bob"; "hi there"].
Proof. reflexivity. Qed.

Example strip_line : PyStr.strip "  hello world  " = "hello world".
Proof. reflexivity. Qed.

Example two_clients_by_registration :
  run_ops [Register "A" 1; Register "B" 2] (init quiet_net) = two_clients.
Proof. reflexivity. Qed.

(** [A] sends ["hello"]: [B] receives ["A: hello"], [A] nothing. *)
Example scenario_group_message :
  emitted (route_message "A" "hello") two_clients =
    [EvSend 2 "A: hello" true true].
Proof. reflexivity. Qed.

(** [A] sends ["/private B hi"]. *)
Example scenario_private_message :
  emitted (route_message "A" "/private B hi") two_clients =
    [EvSend 2 "[PRIVATE] A: hi" true true;
     EvSend 1 "[SENT] Private message to B" true true].
Proof. reflexivity. Qed.

(** [A] sends ["/private ghost hi"]. *)
Example scenario_unknown_target :
  emitted (route_message "A" "/private ghost hi") two_clients =
    [EvSend 1 "[ERROR] User 'ghost' is not online" true true].
Proof. reflexivity. Qed.

(** [A] asks who is online. *)
Example scenario_users :
  emitted (route_message "A" "/users") two_clients =
    [EvSend 1 "[SERVER] Online users (2): A, B" true false].
Proof. reflexivity. Qed.

(** [A] leaves: its socket is closed and its entry removed, but the
    ["left the chat"] notice is never written, since the broadcast is
    called with the lock held. *)
Example scenario_disconnect :
  remove_client "A" true two_clients =
    Blocked OnLock
      (mkWorld [("B", 2)] true 1 2 2 [1] quiet_net
               [EvSend 1 "[SERVER] Connection closed" true true; EvClose 1]).
Proof. reflexivity. Qed.

(** ** Dictionaries *)

Module DictFacts.
Import Dict.

Section Facts.

Context {V : Type}.
Implicit Types (d : Dict.t V) (k : string) (v : V).

Lemma contains_get k d :
  contains k d = match get k d with Some _ => true | None => false end.
Proof.
  induction d as [|[k' v'] r IH]; simpl; [reflexivity|].
  destruct (String.eqb k k'); [reflexivity | exact IH].
Qed.

Lemma contains_In k d : contains k d = true <-> In k (keys d).
Proof.
  induction d as [|[k' v'] r IH]; simpl.
  - split; [discriminate | tauto].
  - destruct (String.eqb_spec k k') as [->|ne].
    + split; auto.
    + rewrite IH. split; [auto | intros [e|i]; [congruence | exact i]].
Qed.

Lemma not_contains_In k d : contains k d = false <-> ~ In k (keys d).
Proof.
  rewrite <- contains_In. destruct (contains k d); split; congruence.
Qed.

Lemma set_absent k v d : contains k d = false -> set k v d = d ++ [(k, v)].
Proof.
  induction d as [|[k' v'] r IH]; simpl; [reflexivity|].
  destruct (String.eqb k k'); [discriminate|].
  intros H. now rewrite IH.
Qed.

Lemma keys_del_incl k k0 d : In k0 (keys (del k d)) -> In k0 (keys d).
Proof.
  induction d as [|[k' v'] r IH]; simpl; [tauto|].
  destruct (String.eqb k k'); simpl; [auto|].
  intros [e|i]; auto.
Qed.

Lemma wf_del k d : wf d -> wf (del k d).
Proof.
  unfold wf. induction d as [|[k' v'] r IH]; simpl; intros H; [exact H|].
  inversion H as [|? ? Hn Hr]; subst.
  destruct (String.eqb k k'); simpl; [exact Hr|].
  constructor; [|auto].
  intros Hin. apply Hn. eapply keys_del_incl; eassumption.
Qed.

Lemma contains_del k d : wf d -> contains k (del k d) = false.
Proof.
  unfold wf. induction d as [|[k' v'] r IH]; simpl; intros H; [reflexivity|].
  inversion H as [|? ? Hn Hr]; subst.
  destruct (String.eqb_spec k k') as [->|ne]; simpl.
  - now apply not_contains_In.
  - destruct (String.eqb_spec k k'); [congruence | auto].
Qed.

Lemma length_del k d :
  contains k d = true -> S (length (del k d)) = length d.
Proof.
  induction d as [|[k' v'] r IH]; simpl; [discriminate|].
  destruct (String.eqb k k'); simpl; [reflexivity|].
  intros H. now rewrite IH.
Qed.

Lemma wf_append k v d : wf d -> contains k d = false -> wf (d ++ [(k, v)]).
Proof.
  unfold wf, keys. intros Hd Hk. rewrite map_app. simpl.
  apply not_contains_In in Hk.
  apply NoDup_app; [exact Hd | repeat constructor; simpl; tauto | ].
  intros a Ha [<-|[]]. exact (Hk Ha).
Qed.

End Facts.

End DictFacts.

(** Two names on one socket are one name, when the sockets of the registry
    are distinct connections. *)
Lemma distinct_sockets (d : Dict.t socket) u v s :
  NoDup (map snd d) -> In (u, s) d -> In (v, s) d -> u = v.
Proof.
  induction d as [|[k x] r IH]; simpl; intros N Iu Iv; [tauto|].
  inversion N as [|? ? Hn Hr]; subst.
  destruct Iu as [Eu|Iu], Iv as [Ev|Iv].
  - congruence.
  - injection Eu as -> ->. exfalso. apply Hn.
    change s with (snd (v, s)). now apply in_map.
  - injection Ev as -> ->. exfalso. apply Hn.
    change s with (snd (u, s)). now apply in_map.
  - now apply IH.
Qed.

(** ** Traces *)

Lemma add_events_nil w : add_events [] w = w.
Proof. destruct w; unfold add_events; simpl. now rewrite app_nil_r. Qed.

Lemma add_events_app e1 e2 w :
  add_events e2 (add_events e1 w) = add_events (e1 ++ e2) w.
Proof. unfold add_events; simpl. now rewrite app_assoc. Qed.

Lemma log_event_add e w : log_event e w = add_events [e] w.
Proof. reflexivity. Qed.

Lemma add_events_log e evs w :
  add_events evs (log_event e w) = add_events (e :: evs) w.
Proof. rewrite log_event_add, add_events_app. reflexivity. Qed.

Lemma skipn_length_app {A} (l r : list A) : skipn (length l) (l ++ r) = r.
Proof. induction l; simpl; auto. Qed.

Lemma firstn_length_app {A} (l r : list A) : firstn (length l) (l ++ r) = l.
Proof. induction l; simpl; [now destruct r | congruence]. Qed.

Lemma in_write_of s msg locked evs :
  In (Some (s, msg, locked)) (map write_of evs) ->
  exists ok, In (EvSend s msg ok locked) evs.
Proof.
  rewrite in_map_iff. intros [[s' m' ok l'|s'] [E I]]; simpl in E;
    [|discriminate].
  injection E as -> -> ->. now exists ok.
Qed.

Lemma write_of_in s msg ok locked evs :
  In (EvSend s msg ok locked) evs ->
  In (Some (s, msg, locked)) (map write_of evs).
Proof. intros I. apply (in_map write_of) in I. exact I. Qed.

(** ** The two methods that call each other *)

(** The removal that [broadcast] calls is [remove_client] itself. *)
Lemma remove_client_quiet username w :
  remove_client_body unreached username false w = remove_client username false w.
Proof. reflexivity. Qed.

Lemma broadcast_unfold message sender w :
  broadcast message sender w = broadcast_body remove_client message sender w.
Proof. reflexivity. Qed.

(** ** [add_client] and [remove_client], step by step *)

Lemma add_client_spec username s w :
  lock_held w = false ->
  add_client username s w =
    if Dict.contains username (clients w) then Ret false w
    else Ret true (registered username s w).
Proof.
  destruct w as [cl lk ac cc mc clo nf tr]; simpl; intros ->.
  unfold add_client, with_lock, bind, gets, modify, ret; simpl.
  destruct (Dict.contains username cl) eqn:E; simpl; [reflexivity|].
  unfold registered; simpl. rewrite (DictFacts.set_absent _ _ _ E).
  destruct (ac + 1 >? mc)%Z; reflexivity.
Qed.

Lemma add_client_locked username s w :
  lock_held w = true -> add_client username s w = Blocked OnLock w.
Proof. intros H. unfold add_client, with_lock. now rewrite H. Qed.

Lemma broadcast_locked message sender w :
  lock_held w = true -> broadcast message sender w = Blocked OnLock w.
Proof. intros H. unfold broadcast, broadcast_body, with_lock. now rewrite H. Qed.

Lemma remove_client_locked username notify w :
  lock_held w = true -> remove_client username notify w = Blocked OnLock w.
Proof. intros H. unfold remove_client, remove_client_body, with_lock. now rewrite H. Qed.

(** With [notify=True] the removal of a registered name ends in
    [self.broadcast], called inside [with self.clients_lock]: the broadcast
    waits for the lock its caller holds. *)
Lemma remove_client_spec username notify w :
  lock_held w = false ->
  remove_client username notify w =
    match Dict.get username (clients w) with
    | None => Ret tt w
    | Some s =>
        if notify then Blocked OnLock (removed username s true w)
        else Ret tt (set_lock false (removed username s false w))
    end.
Proof.
  destruct w as [cl lk ac cc mc clo nf tr]; simpl; intros ->.
  unfold remove_client, remove_client_body, with_lock, bind, gets; simpl.
  rewrite DictFacts.contains_get.
  destruct (Dict.get username cl) as [s|] eqn:G; simpl; [|reflexivity].
  destruct notify;
    unfold try_except, bind, client_of, send, close, modify, ret, set_lock;
    simpl; rewrite G; simpl.
  - unfold removed, farewell, send_ok; simpl.
    destruct (negb (existsb (Nat.eqb s) clo) && negb (nf (length tr) s));
      simpl; rewrite G; reflexivity.
  - reflexivity.
Qed.

Lemma remove_client_absent username notify w :
  lock_held w = false ->
  Dict.contains username (clients w) = false ->
  remove_client username notify w = Ret tt w.
Proof.
  intros L P. rewrite remove_client_spec by exact L.
  rewrite DictFacts.contains_get in P.
  destruct (Dict.get username (clients w)); [discriminate | reflexivity].
Qed.

(** ** The registry invariant *)

Lemma registry_inv_init net : registry_inv (init net).
Proof. split; [reflexivity | constructor]. Qed.

Lemma add_client_inv username s w :
  registry_inv w -> registry_inv (world_of (add_client username s w)).
Proof.
  intros [Hc Hn].
  destruct (lock_held w) eqn:L.
  - rewrite add_client_locked by exact L. now split.
  - rewrite add_client_spec by exact L.
    destruct (Dict.contains username (clients w)) eqn:E; [now split|].
    unfold registry_inv, registered; simpl. split.
    + rewrite Hc, length_app. simpl. lia.
    + now apply DictFacts.wf_append.
Qed.

Lemma remove_client_inv username notify w :
  registry_inv w -> registry_inv (world_of (remove_client username notify w)).
Proof.
  intros [Hc Hn].
  destruct (lock_held w) eqn:L.
  - rewrite remove_client_locked by exact L. now split.
  - rewrite remove_client_spec by exact L.
    destruct (Dict.get username (clients w)) as [s|] eqn:G; [|now split].
    assert (P : Dict.contains username (clients w) = true)
      by (rewrite DictFacts.contains_get, G; reflexivity).
    apply DictFacts.length_del in P.
    assert (registry_inv (removed username s notify w)) as I.
    { split; simpl.
      - rewrite Hc, <- P. lia.
      - now apply DictFacts.wf_del. }
    destruct notify; exact I.
Qed.

Lemma apply_op_inv o w : registry_inv w -> registry_inv (apply_op o w).
Proof.
  destruct o; simpl; [apply add_client_inv | apply remove_client_inv].
Qed.

(** C1: after any sequence of [add_client] and [remove_client] calls made on
    a fresh server, [active_connections] is the number of entries of
    [clients], and no name is a key of [clients] twice. *)
Theorem C1_active_count_is_registry_size :
  forall (net : nat -> socket -> bool) (ops : list registry_op),
    let w := run_ops ops (init net) in
    active_connections w = Z.of_nat (length (clients w)) /\
    NoDup (Dict.keys (clients w)).
Proof.
  intros net ops. cbv zeta.
  change (registry_inv (run_ops ops (init net))).
  generalize (registry_inv_init net). generalize (init net).
  unfold run_ops.
  induction ops as [|o ops IH]; intros w I; simpl; [exact I|].
  apply IH. now apply apply_op_inv.
Qed.

(** ** Registering a name that is taken *)

(** C4: when the name is already a key of [clients], [add_client] returns
    [False] and the whole server state, entry, map and the three counters,
    is what it was. *)
Theorem C4_register_taken_name_fails :
  forall (w : World) (h : string) (s : socket),
    lock_held w = false ->
    Dict.contains h (clients w) = true ->
    add_client h s w = Ret false w.
Proof.
  intros w h s L P. rewrite add_client_spec by exact L. now rewrite P.
Qed.

Lemma C4_register_taken_name_fails_witness :
  add_client "A" 3 two_clients = Ret false two_clients.
Proof.
  apply (C4_register_taken_name_fails two_clients "A" 3); reflexivity.
Defined.

(** ** Removing twice *)

(** C6: a second [remove_client h] changes nothing: the state after it,
    trace of writes included, is the state after the first call, it raises
    nothing, and it returns when the first call returned. *)
Theorem C6_second_removal_is_noop :
  forall (w : World) (h : string) (notify1 notify2 : bool),
    Dict.wf (clients w) ->
    let r1 := remove_client h notify1 w in
    let r2 := remove_client h notify2 (world_of r1) in
    world_of r2 = world_of r1 /\
    raised r2 = false /\
    returned r2 = returned r1.
Proof.
  intros w h n1 n2 Hwf. cbv zeta.
  destruct (lock_held w) eqn:L.
  - rewrite (remove_client_locked h n1 w L). cbn [world_of].
    rewrite (remove_client_locked h n2 w L). now repeat split.
  - rewrite (remove_client_spec h n1 w L).
    destruct (Dict.get h (clients w)) as [s|] eqn:G.
    + destruct n1; cbn [world_of].
      * rewrite remove_client_locked by reflexivity. now repeat split.
      * rewrite remove_client_absent;
          [now repeat split | reflexivity | simpl].
        now apply DictFacts.contains_del.
    + cbn [world_of]. rewrite (remove_client_spec h n2 w L), G. now repeat split.
Qed.

Lemma wf_two_clients : Dict.wf (clients two_clients).
Proof.
  unfold Dict.wf; simpl.
  repeat constructor; simpl; intuition discriminate.
Defined.

Lemma C6_second_removal_is_noop_witness :
  let r1 := remove_client "A" false two_clients in
  let r2 := remove_client "A" true (world_of r1) in
  world_of r2 = world_of r1 /\ raised r2 = false /\ returned r2 = returned r1.
Proof.
  exact (C6_second_removal_is_noop two_clients "A" false true wf_two_clients).
Defined.

(** ** Direct message to a name that is not registered *)

(** C5: when the target is not registered and the sender is, the only thing
    [private_message] does is one write, to the sender's socket, of
    ["[ERROR] User '<target>' is not online"]; the registry is untouched. *)
Theorem C5_private_message_target_absent :
  forall (w : World) (target message sender : string) (s : socket),
    lock_held w = false ->
    Dict.contains target (clients w) = false ->
    Dict.get sender (clients w) = Some s ->
    private_message target message sender w =
      Ret tt (add_events
                [EvSend s ("[ERROR] User '" ++ target ++ "' is not online")
                        (send_ok s w) true] w).
Proof.
  intros [cl lk ac cc mc clo nf tr] target message sender s; simpl.
  intros -> P G.
  unfold private_message, with_lock, bind, gets; simpl. rewrite P.
  unfold try_except, bind, client_of, send, send_ok, set_lock; simpl.
  rewrite G; simpl.
  destruct (negb (existsb (Nat.eqb s) clo) && negb (nf (length tr) s));
    reflexivity.
Qed.

Lemma C5_private_message_target_absent_witness :
  private_message "ghost" "hi" "A" two_clients =
    Ret tt (add_events
              [EvSend 1 "[ERROR] User 'ghost' is not online" true true]
              two_clients).
Proof.
  apply (C5_private_message_target_absent two_clients "ghost" "hi" "A" 1);
    reflexivity.
Defined.

(** ** Broadcast *)

Lemma fan_out_spec message sender items :
  forall disconnected w,
    fan_out message sender items disconnected w =
      Ret (disconnected ++ failed message (recipients sender items) w)
          (add_events (fan_out_events message (recipients sender items) w) w).
Proof.
  induction items as [|[u s] r IH]; intros d w; simpl.
  - now rewrite app_nil_r, add_events_nil.
  - destruct (differs u sender); simpl; [|apply IH].
    unfold bind, try_except, send.
    destruct (send_ok s w); simpl; rewrite IH, add_events_log.
    + reflexivity.
    + now rewrite <- app_assoc.
Qed.

Lemma fan_out_events_writes message recs :
  forall w,
    map write_of (fan_out_events message recs w) =
    map (fun p => Some (snd p, message, lock_held w)) recs.
Proof.
  induction recs as [|[u s] r IH]; intros w; simpl; [reflexivity|].
  now rewrite IH.
Qed.

Lemma failed_nil_iff message recs :
  forall w,
    failed message recs w = [] <->
    forallb ev_ok (fan_out_events message recs w) = true.
Proof.
  induction recs as [|[u s] r IH]; intros w; simpl; [tauto|].
  destruct (send_ok s w); simpl; [apply IH | split; discriminate].
Qed.

(** What [broadcast] does on a server whose lock is free: the fan-out, then
    either nothing more, or a removal that waits for the lock the broadcast
    itself holds. *)
Lemma broadcast_spec message sender w :
  lock_held w = false ->
  broadcast message sender w =
    let w1 := set_lock true w in
    let recs := recipients sender (clients w) in
    let w2 := add_events (fan_out_events message recs w1) w1 in
    match failed message recs w1 with
    | [] => Ret tt (set_lock false w2)
    | _ :: _ => Blocked OnLock w2
    end.
Proof.
  intros L. unfold broadcast, broadcast_body, with_lock. rewrite L.
  unfold bind at 1. unfold gets. unfold bind at 1.
  rewrite fan_out_spec. cbv zeta.
  change (clients (set_lock true w)) with (clients w).
  unfold Dict.items.
  destruct (failed message (recipients sender (clients w)) (set_lock true w))
    as [|u r]; simpl; reflexivity.
Qed.

Lemma emitted_broadcast message sender w :
  lock_held w = false ->
  emitted (broadcast message sender) w =
    fan_out_events message (recipients sender (clients w)) (set_lock true w).
Proof.
  intros L. unfold emitted. rewrite broadcast_spec by exact L. cbv zeta.
  destruct (failed _ _ _); simpl; apply skipn_length_app.
Qed.

(** C3: a broadcast that excludes [sender] writes nothing to the sender's
    socket (the registered sockets being distinct connections), and attempts
    one write of the message to the socket of every other name in
    [clients]. *)
Theorem C3_broadcast_excludes_sender_reaches_others :
  forall (w : World) (message sender : string),
    lock_held w = false ->
    NoDup (map snd (clients w)) ->
    let evs := emitted (broadcast message (Some sender)) w in
    (forall s, In (sender, s) (clients w) ->
               forall msg ok locked, ~ In (EvSend s msg ok locked) evs) /\
    (forall u s, In (u, s) (clients w) -> u <> sender ->
                 exists ok, In (EvSend s message ok true) evs).
Proof.
  intros w message sender L N. cbv zeta.
  rewrite emitted_broadcast by exact L.
  split.
  - intros s Is msg ok locked I.
    apply write_of_in in I. rewrite fan_out_events_writes in I.
    apply in_map_iff in I. destruct I as [[v s'] [E I]].
    simpl in E. injection E as -> _ _.
    apply filter_In in I. destruct I as [I D]. simpl in D.
    assert (v = sender) by (eapply distinct_sockets; eassumption).
    subst v. now rewrite String.eqb_refl in D.
  - intros u s I ne.
    apply in_write_of. rewrite fan_out_events_writes. simpl.
    apply in_map_iff. exists (u, s). split; [reflexivity|].
    apply filter_In. split; [exact I|]. simpl.
    destruct (String.eqb_spec u sender); [contradiction | reflexivity].
Qed.

Lemma distinct_sockets_two_clients : NoDup (map snd (clients two_clients)).
Proof. simpl. repeat constructor; simpl; intuition discriminate. Defined.

Lemma C3_broadcast_excludes_sender_reaches_others_witness :
  let evs := emitted (broadcast "A: hello" (Some "A")) two_clients in
  (forall s, In ("A", s) (clients two_clients) ->
             forall msg ok locked, ~ In (EvSend s msg ok locked) evs) /\
  (forall u s, In (u, s) (clients two_clients) -> u <> "A" ->
               exists ok, In (EvSend s "A: hello" ok true) evs).
Proof.
  apply (C3_broadcast_excludes_sender_reaches_others two_clients "A: hello" "A").
  - reflexivity.
  - exact distinct_sockets_two_clients.
Defined.

(** ** A recipient whose write fails *)

(** Whenever a write of the fan-out fails, [broadcast] goes on to
    [remove_client(username, notify=False)] inside its own
    [with self.clients_lock] block; the lock is not reentrant, so the call
    never gets it: the broadcast does not return, the lock stays held and
    [clients] still has every entry. *)
Lemma broadcast_failure_blocks message sender w :
  lock_held w = false ->
  forallb ev_ok (emitted (broadcast message sender) w) = false ->
  exists w',
    broadcast message sender w = Blocked OnLock w' /\
    lock_held w' = true /\
    same_registry w w'.
Proof.
  intros L F. rewrite emitted_broadcast in F by exact L.
  rewrite broadcast_spec by exact L. cbv zeta.
  destruct (failed message (recipients sender (clients w)) (set_lock true w))
    as [|u r] eqn:E.
  - apply failed_nil_iff in E. congruence.
  - eexists. split; [reflexivity|]. now repeat split.
Qed.

(** C7, on the code: [A] sends a group message while the write to [B]
    fails.  The broadcast never returns: it waits for the lock it holds.
    [B] is still registered, the counter still says 2, and the lock is held
    for good. *)
Theorem C7_failed_recipient_is_not_removed :
  let r := broadcast "A: hello" (Some "A") two_clients_B_dead in
  emitted (broadcast "A: hello" (Some "A")) two_clients_B_dead =
    [EvSend 2 "A: hello" false true] /\
  r = Blocked OnLock
        (mkWorld [("A", 1); ("B", 2)] true 2 2 2 [] dead_socket_2
                 [EvSend 2 "A: hello" false true]) /\
  Dict.get "B" (clients (world_of r)) = Some 2 /\
  active_connections (world_of r) = 2%Z /\
  lock_held (world_of r) = true.
Proof.
  cbv zeta. rewrite emitted_broadcast by reflexivity.
  rewrite broadcast_spec by reflexivity.
  repeat split.
Qed.

(** ** The lock and the network writes *)

(** C9 as stated fails: [A]'s group message is written to [B]'s socket
    while the broadcast holds [clients_lock]. *)
Lemma C9_broadcast_writes_under_lock_counterexample :
  lock_held two_clients = false /\
  emitted (broadcast "A: hello" (Some "A")) two_clients =
    [EvSend 2 "A: hello" true true] /\
  ~ writes_locked false (emitted (broadcast "A: hello" (Some "A")) two_clients).
Proof.
  split; [reflexivity|]. split; [reflexivity|].
  intros H. specialize (H 2 "A: hello" true true). simpl in H.
  assert (true = false) by (apply H; left; reflexivity). discriminate.
Qed.

(** C9, amended: [broadcast] iterates [clients] and performs every one of
    its recipient writes inside [with self.clients_lock], the lock held. *)
Theorem C9_broadcast_writes_with_lock_held :
  forall (w : World) (message : string) (sender : option string),
    lock_held w = false ->
    writes_locked true (emitted (broadcast message sender) w) /\
    map write_of (emitted (broadcast message sender) w) =
      map (fun p => Some (snd p, message, true)) (recipients sender (clients w)).
Proof.
  intros w message sender L. rewrite emitted_broadcast by exact L.
  assert (W := fan_out_events_writes message
                 (recipients sender (clients w)) (set_lock true w)).
  simpl in W. split; [|exact W].
  intros s msg ok l I. apply write_of_in in I. rewrite W in I.
  apply in_map_iff in I. destruct I as [p [E _]]. congruence.
Qed.

Lemma C9_broadcast_writes_with_lock_held_witness :
  writes_locked true (emitted (broadcast "A: hello" (Some "A")) two_clients) /\
  map write_of (emitted (broadcast "A: hello" (Some "A")) two_clients) =
    map (fun p => Some (snd p, "A: hello", true))
        (recipients (Some "A") (clients two_clients)).
Proof.
  apply (C9_broadcast_writes_with_lock_held two_clients "A: hello" (Some "A")).
  reflexivity.
Defined.

(** ** Routing one line *)

Lemma split_space_length maxsplit :
  forall s, (length (PyStr.split_space maxsplit s) <= S maxsplit)%nat.
Proof.
  induction maxsplit as [|n IH]; intros s; simpl; [lia|].
  destruct (PyStr.break_space s) as [[a b]|]; simpl; [|lia].
  specialize (IH b). lia.
Qed.

Lemma reply_to_sender username s text w :
  lock_held w = false ->
  Dict.get username (clients w) = Some s ->
  (c <- client_of username ;; send c text) w = reply_only s text w.
Proof.
  intros L G. unfold bind, client_of, send, reply_only.
  rewrite G, L. reflexivity.
Qed.

Lemma get_online_users_spec w :
  lock_held w = false ->
  get_online_users w = Ret (Dict.keys (clients w)) w.
Proof.
  destruct w; simpl; intros ->. reflexivity.
Qed.

(** C2 as stated fails: the line ["/private"] does not begin with
    ["/private "], is neither ["/users"] nor ["/help"], and is not delivered
    as a group message: [B] gets nothing and [A] gets the usage error. *)
Lemma C2_bare_private_counterexample :
  Dict.get "A" (clients two_clients) = Some 1 /\
  PyStr.startswith "/private " "/private" = false /\
  "/private" <> "" /\ "/private" <> "/users" /\ "/private" <> "/help" /\
  emitted (route_message "A" "/private") two_clients =
    [EvSend 1 usage_error true false] /\
  emitted (broadcast ("A" ++ ": " ++ "/private") (Some "A")) two_clients =
    [EvSend 2 "A: /private" true true] /\
  route_message "A" "/private" two_clients <>
    broadcast ("A" ++ ": " ++ "/private") (Some "A") two_clients.
Proof.
  repeat split; try reflexivity; discriminate.
Qed.

(** C2, amended: the private-message command is every line that begins
    with ["/private"], a space after it or not.  Such a line is split on
    single spaces into at most three tokens; with three tokens it is a
    direct message to the second token carrying the third, with fewer the
    sender alone gets the usage error.  Of the other lines, ["/users"] gets
    the list of names, ["/help"] the command summary, and every other line
    is broadcast as ["<sender>: <line>"], a write being attempted to every
    other registered socket. *)
Theorem C2_route_message_dispatch :
  forall (w : World) (username message : string) (s : socket),
    lock_held w = false ->
    Dict.get username (clients w) = Some s ->
    let parts := PyStr.split_space 2 message in
    (length parts <= 3)%nat /\
    (PyStr.startswith "/private" message = true ->
       (forall c target content,
           parts = [c; target; content] ->
           route_message username message w =
             private_message target content username w) /\
       ((length parts < 3)%nat ->
           route_message username message w = reply_only s usage_error w)) /\
    (PyStr.startswith "/private" message = false ->
       (message = "/users" ->
           route_message username message w =
             reply_only s (users_response (Dict.keys (clients w))) w) /\
       (message = "/help" ->
           route_message username message w = reply_only s help_text w) /\
       (message <> "/users" -> message <> "/help" ->
           route_message username message w =
             broadcast (username ++ ": " ++ message) (Some username) w /\
           forall u' s', In (u', s') (clients w) -> u' <> username ->
             exists ok,
               In (EvSend s' (username ++ ": " ++ message) ok true)
                  (emitted (route_message username message) w))).
Proof.
  intros w username message s L G parts.
  split; [apply split_space_length|].
  unfold route_message. fold parts.
  split; intros P; rewrite P.
  - split.
    + intros c target content E. rewrite E. reflexivity.
    + intros Hlen. apply Nat.leb_gt in Hlen. rewrite Hlen.
      now apply reply_to_sender.
  - split; [|split].
    + intros ->. rewrite String.eqb_refl.
      unfold bind at 1. rewrite get_online_users_spec by exact L.
      now apply reply_to_sender.
    + intros ->. change ("/help" =? "/users") with false.
      rewrite String.eqb_refl.
      now apply reply_to_sender.
    + intros nu nh.
      destruct (String.eqb_spec message "/users"); [contradiction|].
      destruct (String.eqb_spec message "/help"); [contradiction|].
      split; [reflexivity|].
      intros u' s' I ne.
      unfold emitted.
      change (skipn (length (trace w))
                (trace (world_of (broadcast (username ++ ": " ++ message)
                                            (Some username) w))))
        with (emitted (broadcast (username ++ ": " ++ message) (Some username)) w).
      rewrite emitted_broadcast by exact L.
      apply in_write_of. rewrite fan_out_events_writes. simpl.
      apply in_map_iff. exists (u', s'). split; [reflexivity|].
      apply filter_In. split; [exact I|]. simpl.
      destruct (String.eqb_spec u' username); [contradiction | reflexivity].
Qed.

Lemma C2_route_message_dispatch_witness :
  let parts := PyStr.split_space 2 "/private B hi" in
  (length parts <= 3)%nat /\
  (PyStr.startswith "/private" "/private B hi" = true ->
     (forall c target content,
         parts = [c; target; content] ->
         route_message "A" "/private B hi" two_clients =
           private_message target content "A" two_clients) /\
     ((length parts < 3)%nat ->
         route_message "A" "/private B hi" two_clients =
           reply_only 1 usage_error two_clients)) /\
  (PyStr.startswith "/private" "/private B hi" = false ->
     ("/private B hi" = "/users" ->
         route_message "A" "/private B hi" two_clients =
           reply_only 1 (users_response (Dict.keys (clients two_clients)))
                      two_clients) /\
     ("/private B hi" = "/help" ->
         route_message "A" "/private B hi" two_clients =
           reply_only 1 help_text two_clients) /\
     ("/private B hi" <> "/users" -> "/private B hi" <> "/help" ->
         route_message "A" "/private B hi" two_clients =
           broadcast ("A" ++ ": " ++ "/private B hi") (Some "A") two_clients /\
         forall u' s', In (u', s') (clients two_clients) -> u' <> "A" ->
           exists ok,
             In (EvSend s' ("A" ++ ": " ++ "/private B hi") ok true)
                (emitted (route_message "A" "/private B hi") two_clients))).
Proof.
  apply (C2_route_message_dispatch two_clients "A" "/private B hi" 1);
    reflexivity.
Defined.

(** ** A handshake that fails *)

(** An empty name: nothing is written to anyone, the socket is closed and
    the server state is otherwise what it was. *)
Lemma handle_client_empty_name client_socket raw inputs w :
  PyStr.strip raw = "" ->
  handle_client client_socket (RecvData raw) inputs w =
    Ret tt (log_event (EvClose client_socket) (mark_closed client_socket w)).
Proof.
  intros E. unfold handle_client, try_finally, try_except, bind, recv, ret.
  rewrite E. reflexivity.
Qed.

Lemma rejected_registry client_socket w :
  lock_held (rejected client_socket w) = lock_held w /\
  clients (rejected client_socket w) = clients w.
Proof. unfold rejected. now destruct (send_ok client_socket w). Qed.

(** A name that is taken: the newcomer is told so and its socket closed,
    and then the [finally] clause, which tests only that a name was read,
    runs [remove_client(username, notify=True)] on the name of the
    registered holder: the holder's socket is closed and its entry deleted,
    and the thread blocks in the broadcast of the removal. *)
Lemma handle_client_taken_name client_socket raw inputs w s :
  lock_held w = false ->
  PyStr.truthy (PyStr.strip raw) = true ->
  Dict.get (PyStr.strip raw) (clients w) = Some s ->
  handle_client client_socket (RecvData raw) inputs w =
    Blocked OnLock (removed (PyStr.strip raw) s true (rejected client_socket w)).
Proof.
  intros L T G.
  assert (P : Dict.contains (PyStr.strip raw) (clients w) = true)
    by (rewrite DictFacts.contains_get, G; reflexivity).
  destruct (rejected_registry client_socket w) as [RL RC].
  assert (R := remove_client_spec (PyStr.strip raw) true
                 (rejected client_socket w)).
  rewrite RL, RC, G in R. specialize (R L).
  unfold handle_client, try_finally, try_except, recv.
  cbv beta iota zeta. unfold bind, ret. rewrite T. cbn [negb].
  rewrite add_client_spec by exact L. rewrite P. cbn [negb].
  unfold send, close. unfold rejected in R |- *. cbv zeta in R |- *.
  rewrite L.
  destruct (send_ok client_socket w); cbn [any_exn]; rewrite R; reflexivity.
Qed.

(** C8, on the code: [A] is registered on socket 1 and a newcomer on
    socket 3 sends the name [A].  The newcomer gets the error and is
    closed; then [A] itself is told ["[SERVER] Connection closed"], its
    socket is closed, its entry is deleted and [active_connections] drops
    to 1; the handler never returns and leaves the lock held. *)
Theorem C8_duplicate_handshake_evicts_holder :
  let r := handle_client 3 (RecvData "A") [] two_clients in
  Dict.get "A" (clients two_clients) = Some 1 /\
  r = Blocked OnLock
        (mkWorld [("B", 2)] true 1 2 2 [1; 3] quiet_net
                 [EvSend 3 username_taken true false;
                  EvClose 3;
                  EvSend 1 "[SERVER] Connection closed" true true;
                  EvClose 1]) /\
  Dict.contains "A" (clients (world_of r)) = false /\
  active_connections (world_of r) = 1%Z /\
  ~ same_registry two_clients (world_of r).
Proof.
  cbv zeta.
  rewrite (handle_client_taken_name 3 "A" [] two_clients 1);
    [| reflexivity | reflexivity | reflexivity].
  repeat split; try reflexivity.
  intros [C _]. discriminate C.
Qed.

(** ** The confidentiality helper *)

Lemma KEY_length : length KEY = 16%nat.
Proof. reflexivity. Qed.

(** What [decrypt_message] cuts out of [nonce + tag + ciphertext]. *)
Lemma message_layout (nonce tag ciphertext : bytes) :
  length nonce = 16%nat -> length tag = 16%nat ->
  let data := nonce ++ tag ++ ciphertext in
  firstn 16 data = nonce /\
  firstn 16 (skipn 16 data) = tag /\
  skipn 32 data = ciphertext.
Proof.
  intros Hn Ht data. subst data.
  assert (S16 : skipn 16 (nonce ++ tag ++ ciphertext) = tag ++ ciphertext)
    by (rewrite <- Hn; apply skipn_length_app).
  split; [rewrite <- Hn; apply firstn_length_app|].
  split.
  - rewrite S16, <- Ht. apply firstn_length_app.
  - change 32%nat with (16 + 16)%nat. rewrite <- skipn_skipn, S16, <- Ht.
    apply skipn_length_app.
Qed.

Section ConfidentialityFacts.

Variable utf8_encode : string -> bytes.
Variable utf8_decode : bytes -> option string.
Variable encrypt_and_digest : bytes -> bytes -> bytes -> bytes * bytes.
Variable decrypt_and_verify : bytes -> bytes -> bytes -> bytes -> option bytes.

(** Decoding gives back the text that was encoded. *)
Hypothesis utf8_roundtrip : forall m, utf8_decode (utf8_encode m) = Some m.

(** The tag of EAX is 16 bytes long. *)
Hypothesis tag_length :
  forall key nonce plaintext,
    length (snd (encrypt_and_digest key nonce plaintext)) = 16%nat.

(** Under the key and nonce of the encryption, the ciphertext and its tag
    verify and decrypt to the plaintext. *)
Hypothesis eax_correct :
  forall key nonce plaintext,
    decrypt_and_verify key nonce
      (fst (encrypt_and_digest key nonce plaintext))
      (snd (encrypt_and_digest key nonce plaintext)) = Some plaintext.

(** C10: for every message and every 16-byte nonce,
    [decrypt_message(encrypt_message(m))] is [m]: the output of
    [encrypt_message] is nonce, tag, ciphertext, and [decrypt_message] cuts
    it at bytes 16 and 32 and decrypts under the same [KEY]. *)
Theorem C10_decrypt_encrypt_roundtrip :
  forall (m : string) (nonce : bytes),
    length nonce = 16%nat ->
    decrypt_message utf8_decode decrypt_and_verify
      (encrypt_message utf8_encode encrypt_and_digest nonce m) = Some m.
Proof.
  intros m nonce Hn. unfold encrypt_message, decrypt_message.
  assert (Ht := tag_length KEY nonce (utf8_encode m)).
  assert (Hc := eax_correct KEY nonce (utf8_encode m)).
  destruct (encrypt_and_digest KEY nonce (utf8_encode m)) as [ciphertext tag].
  simpl in Ht, Hc.
  destruct (message_layout nonce tag ciphertext Hn Ht) as [E1 [E2 E3]].
  rewrite E1, E2, E3, Hc. apply utf8_roundtrip.
Qed.

End ConfidentialityFacts.

Lemma C10_decrypt_encrypt_roundtrip_witness :
  decrypt_message toy_decode toy_decrypt
    (encrypt_message list_byte_of_string toy_encrypt
       (repeat Byte.x2a 16) "hello") = Some "hello".
Proof.
  apply (C10_decrypt_encrypt_roundtrip
           list_byte_of_string toy_decode toy_encrypt toy_decrypt).
  - intros m. unfold toy_decode. now rewrite string_of_list_byte_of_string.
  - reflexivity.
  - reflexivity.
  - reflexivity.
Defined.

(** * Further properties *)

#[local] Arguments route_message : simpl never.

(** ** More on the registry *)

Lemma get_append_new (d : Dict.t socket) u s :
  Dict.contains u d = false -> Dict.get u (d ++ [(u, s)]) = Some s.
Proof.
  induction d as [|[k x] r IH]; simpl.
  - now rewrite String.eqb_refl.
  - destruct (String.eqb u k); [discriminate | exact IH].
Qed.

Lemma get_append_other (d : Dict.t socket) u v s :
  v <> u -> Dict.get v (d ++ [(u, s)]) = Dict.get v d.
Proof.
  intros ne. induction d as [|[k x] r IH]; simpl.
  - destruct (String.eqb_spec v u); [contradiction | reflexivity].
  - destruct (String.eqb v k); [reflexivity | exact IH].
Qed.

Lemma del_append_new (d : Dict.t socket) u s :
  Dict.contains u d = false -> Dict.del u (d ++ [(u, s)]) = d.
Proof.
  induction d as [|[k x] r IH]; simpl.
  - now rewrite String.eqb_refl.
  - destruct (String.eqb u k); [discriminate|]. intros H. now rewrite IH.
Qed.

Lemma get_del_other (d : Dict.t socket) u v :
  v <> u -> Dict.get v (Dict.del u d) = Dict.get v d.
Proof.
  intros ne. induction d as [|[k x] r IH]; simpl; [reflexivity|].
  destruct (String.eqb_spec u k) as [->|nk]; simpl.
  - destruct (String.eqb_spec v k); [contradiction | reflexivity].
  - destruct (String.eqb v k); [reflexivity | exact IH].
Qed.

(** X1: on a name that is not registered [add_client] returns [True]; the
    name is then looked up to the new socket and every other name to what
    it was, the new key comes last, [active_connections] and
    [connection_count] go up by one, [max_concurrent] is the larger of its
    old value and the new count, and nothing is written or closed. *)
Theorem add_client_registers_new_name :
  forall (w : World) (username : string) (s : socket),
    lock_held w = false ->
    Dict.contains username (clients w) = false ->
    exists w',
      add_client username s w = Ret true w' /\
      Dict.get username (clients w') = Some s /\
      (forall v, v <> username ->
                 Dict.get v (clients w') = Dict.get v (clients w)) /\
      Dict.keys (clients w') = Dict.keys (clients w) ++ [username] /\
      active_connections w' = (active_connections w + 1)%Z /\
      connection_count w' = (connection_count w + 1)%Z /\
      max_concurrent w' = Z.max (max_concurrent w) (active_connections w + 1) /\
      lock_held w' = false /\
      trace w' = trace w /\ closed w' = closed w.
Proof.
  intros w u s L P. exists (registered u s w).
  rewrite add_client_spec by exact L. rewrite P.
  split; [reflexivity|]. unfold registered; simpl.
  split; [now apply get_append_new|].
  split; [intros v ne; now apply get_append_other|].
  split; [unfold Dict.keys; now rewrite map_app|].
  repeat split; try assumption.
  destruct (Z.gtb_spec (active_connections w + 1) (max_concurrent w)); lia.
Qed.

Lemma add_client_registers_new_name_witness :
  exists w',
    add_client "C" 3 two_clients = Ret true w' /\
    Dict.get "C" (clients w') = Some 3 /\
    (forall v, v <> "C" ->
               Dict.get v (clients w') = Dict.get v (clients two_clients)) /\
    Dict.keys (clients w') = Dict.keys (clients two_clients) ++ ["C"] /\
    active_connections w' = (active_connections two_clients + 1)%Z /\
    connection_count w' = (connection_count two_clients + 1)%Z /\
    max_concurrent w' =
      Z.max (max_concurrent two_clients) (active_connections two_clients + 1) /\
    lock_held w' = false /\
    trace w' = trace two_clients /\ closed w' = closed two_clients.
Proof.
  apply (add_client_registers_new_name two_clients "C" 3); reflexivity.
Defined.

Lemma apply_op_counters o w :
  counters_inv w -> counters_inv (apply_op o w).
Proof.
  intros (H0 & H1 & H2 & H3). destruct o as [u s|u n]; simpl.
  - destruct (lock_held w) eqn:L.
    + rewrite add_client_locked by exact L. now repeat split.
    + rewrite add_client_spec by exact L.
      destruct (Dict.contains u (clients w)); [now repeat split|].
      unfold counters_inv, registered; simpl.
      rewrite length_app; simpl.
      destruct (Z.gtb_spec (active_connections w + 1) (max_concurrent w)); lia.
  - destruct (lock_held w) eqn:L.
    + rewrite remove_client_locked by exact L. now repeat split.
    + rewrite remove_client_spec by exact L.
      destruct (Dict.get u (clients w)) as [s|] eqn:G; [|now repeat split].
      assert (P : Dict.contains u (clients w) = true)
        by (rewrite DictFacts.contains_get, G; reflexivity).
      apply DictFacts.length_del in P.
      destruct n; unfold counters_inv; simpl; lia.
Qed.

(** X2: after any sequence of [add_client] and [remove_client] calls on a
    fresh server, [0 <= active_connections <= max_concurrent <=
    connection_count]. *)
Theorem counters_stay_ordered :
  forall (net : nat -> socket -> bool) (ops : list registry_op),
    let w := run_ops ops (init net) in
    (0 <= active_connections w <= max_concurrent w)%Z /\
    (max_concurrent w <= connection_count w)%Z.
Proof.
  intros net ops. cbv zeta.
  assert (I : counters_inv (run_ops ops (init net))).
  { assert (I0 : counters_inv (init net))
      by (unfold counters_inv; simpl; lia).
    revert I0. generalize (init net). unfold run_ops.
    induction ops as [|o ops IH]; intros w I; simpl; [exact I|].
    apply IH. now apply apply_op_counters. }
  destruct I as (H0 & H1 & H2 & _). lia.
Qed.

(** X3: from any state, no sequence of [add_client] and [remove_client]
    calls lowers [connection_count] or [max_concurrent]. *)
Theorem statistics_never_decrease :
  forall (ops : list registry_op) (w : World),
    (connection_count w <= connection_count (run_ops ops w))%Z /\
    (max_concurrent w <= max_concurrent (run_ops ops w))%Z.
Proof.
  unfold run_ops.
  induction ops as [|o ops IH]; intros w; simpl; [lia|].
  specialize (IH (apply_op o w)).
  assert (connection_count w <= connection_count (apply_op o w) /\
          max_concurrent w <= max_concurrent (apply_op o w))%Z; [|lia].
  destruct o as [u s|u n]; simpl.
  - destruct (lock_held w) eqn:L.
    + rewrite add_client_locked by exact L. simpl. lia.
    + rewrite add_client_spec by exact L.
      destruct (Dict.contains u (clients w)); simpl; [lia|].
      destruct (Z.gtb_spec (active_connections w + 1) (max_concurrent w)); lia.
  - destruct (lock_held w) eqn:L.
    + rewrite remove_client_locked by exact L. simpl. lia.
    + rewrite remove_client_spec by exact L.
      destruct (Dict.get u (clients w)) as [s|]; [|simpl; lia].
      destruct n; simpl; lia.
Qed.

(** X4: registering a new name and removing it with [notify=False] gives
    back the map and [active_connections] of before; what stays is one more
    in [connection_count] and the socket, closed, with nothing written to
    anyone. *)
Theorem register_then_quiet_removal :
  forall (w : World) (username : string) (s : socket),
    lock_held w = false ->
    Dict.contains username (clients w) = false ->
    let w1 := world_of (add_client username s w) in
    exists w2,
      remove_client username false w1 = Ret tt w2 /\
      clients w2 = clients w /\
      active_connections w2 = active_connections w /\
      connection_count w2 = (connection_count w + 1)%Z /\
      lock_held w2 = false /\
      closed w2 = s :: closed w /\
      trace w2 = trace w ++ [EvClose s].
Proof.
  intros w u s L P. cbv zeta.
  rewrite add_client_spec by exact L. rewrite P. cbn [world_of].
  rewrite remove_client_spec by exact L.
  cbn [clients registered]. rewrite (get_append_new _ _ _ P).
  eexists. split; [reflexivity|]. simpl.
  rewrite (del_append_new _ _ _ P). repeat split. lia.
Qed.

Lemma register_then_quiet_removal_witness :
  let w1 := world_of (add_client "C" 3 two_clients) in
  exists w2,
    remove_client "C" false w1 = Ret tt w2 /\
    clients w2 = clients two_clients /\
    active_connections w2 = active_connections two_clients /\
    connection_count w2 = (connection_count two_clients + 1)%Z /\
    lock_held w2 = false /\
    closed w2 = 3 :: closed two_clients /\
    trace w2 = trace two_clients ++ [EvClose 3].
Proof.
  apply (register_then_quiet_removal two_clients "C" 3); reflexivity.
Defined.

(** X5: removing a registered name, with or without notice, changes the
    lookup of no other name, shortens the map by one entry, lowers
    [active_connections] by one, closes the socket of that name and leaves
    the two statistics alone. *)
Theorem remove_client_touches_one_entry :
  forall (w : World) (username : string) (notify : bool) (s : socket),
    lock_held w = false ->
    Dict.get username (clients w) = Some s ->
    let w' := world_of (remove_client username notify w) in
    (forall v, v <> username ->
               Dict.get v (clients w') = Dict.get v (clients w)) /\
    length (clients w') = pred (length (clients w)) /\
    active_connections w' = (active_connections w - 1)%Z /\
    closed w' = s :: closed w /\
    connection_count w' = connection_count w /\
    max_concurrent w' = max_concurrent w.
Proof.
  intros w u n s L G. cbv zeta.
  rewrite remove_client_spec by exact L. rewrite G.
  assert (P : Dict.contains u (clients w) = true)
    by (rewrite DictFacts.contains_get, G; reflexivity).
  apply DictFacts.length_del in P.
  destruct n; simpl; (split; [intros v ne; now apply get_del_other|]);
    rewrite <- P; repeat split.
Qed.

Lemma remove_client_touches_one_entry_witness :
  let w' := world_of (remove_client "A" true two_clients) in
  (forall v, v <> "A" ->
             Dict.get v (clients w') = Dict.get v (clients two_clients)) /\
  length (clients w') = pred (length (clients two_clients)) /\
  active_connections w' = (active_connections two_clients - 1)%Z /\
  closed w' = 1 :: closed two_clients /\
  connection_count w' = connection_count two_clients /\
  max_concurrent w' = max_concurrent two_clients.
Proof.
  apply (remove_client_touches_one_entry two_clients "A" true 1); reflexivity.
Defined.

(** X6: [remove_client] with [notify=True] on a registered name never
    returns: it calls [broadcast] inside its own [with self.clients_lock]
    block.  All it wrote is the farewell to the removed client; the
    ["left the chat"] notice is written to nobody, and the lock stays
    held. *)
Theorem remove_client_with_notice_blocks :
  forall (w : World) (username : string) (s : socket),
    lock_held w = false ->
    Dict.get username (clients w) = Some s ->
    exists w',
      remove_client username true w = Blocked OnLock w' /\
      lock_held w' = true /\
      emitted (remove_client username true) w =
        [EvSend s "[SERVER] Connection closed" (send_ok s w) true; EvClose s].
Proof.
  intros w u s L G. unfold emitted.
  rewrite remove_client_spec by exact L. rewrite G.
  eexists. split; [reflexivity|]. split; [reflexivity|].
  simpl. rewrite <- app_assoc. apply skipn_length_app.
Qed.

Lemma remove_client_with_notice_blocks_witness :
  exists w',
    remove_client "A" true two_clients = Blocked OnLock w' /\
    lock_held w' = true /\
    emitted (remove_client "A" true) two_clients =
      [EvSend 1 "[SERVER] Connection closed" (send_ok 1 two_clients) true;
       EvClose 1].
Proof.
  apply (remove_client_with_notice_blocks two_clients "A" 1); reflexivity.
Defined.

(** ** Direct messages *)

Lemma healthy_send_ok s w : healthy w -> send_ok s w = true.
Proof.
  intros [C N]. unfold send_ok. now rewrite C, N.
Qed.

Lemma healthy_log e w : healthy w -> healthy (log_event e w).
Proof. intros [C N]. split; simpl; assumption. Qed.

Lemma healthy_set_lock b w : healthy w -> healthy (set_lock b w).
Proof. intros [C N]. split; simpl; assumption. Qed.

(** X7: when target and sender are registered and the writes go through,
    [private_message] writes ["[PRIVATE] <sender>: <message>"] to the target,
    then ["[SENT] Private message to <target>"] to the sender, and nothing
    else changes. *)
Theorem private_message_delivered :
  forall (w : World) (target message sender : string) (t s : socket),
    lock_held w = false ->
    healthy w ->
    Dict.get target (clients w) = Some t ->
    Dict.get sender (clients w) = Some s ->
    private_message target message sender w =
      Ret tt (add_events
                [EvSend t ("[PRIVATE] " ++ sender ++ ": " ++ message) true true;
                 EvSend s ("[SENT] Private message to " ++ target) true true]
                w).
Proof.
  intros w target message sender t s L H Gt Gs.
  assert (P : Dict.contains target (clients w) = true)
    by (rewrite DictFacts.contains_get, Gt; reflexivity).
  unfold private_message, with_lock. rewrite L.
  unfold bind at 1. unfold gets. cbn [clients set_lock]. rewrite P.
  unfold try_except, bind, client_of. cbn [clients set_lock]. rewrite Gt.
  unfold send.
  rewrite healthy_send_ok by now apply healthy_set_lock.
  cbn [clients log_event set_lock]. rewrite Gs.
  rewrite healthy_send_ok by (apply healthy_log; now apply healthy_set_lock).
  destruct w as [cl lk ac cc mc clo nf tr]; simpl in L; subst lk.
  unfold add_events, set_lock, log_event; simpl.
  now rewrite <- app_assoc.
Qed.

Lemma healthy_two_clients : healthy two_clients.
Proof. split; reflexivity. Defined.

Lemma private_message_delivered_witness :
  private_message "B" "hi" "A" two_clients =
    Ret tt (add_events
              [EvSend 2 ("[PRIVATE] " ++ "A" ++ ": " ++ "hi") true true;
               EvSend 1 ("[SENT] Private message to " ++ "B") true true]
              two_clients).
Proof.
  apply (private_message_delivered two_clients "B" "hi" "A" 2 1);
    [reflexivity | exact healthy_two_clients | reflexivity | reflexivity].
Defined.

(** X8: when the write to the target fails, the sender is sent
    ["[ERROR] Could not deliver message to <target>"] instead of the
    confirmation, the call returns, and the target stays registered. *)
Theorem private_message_target_write_fails :
  forall (w : World) (target message sender : string) (t s : socket),
    lock_held w = false ->
    Dict.get target (clients w) = Some t ->
    Dict.get sender (clients w) = Some s ->
    send_ok t w = false ->
    exists ok,
      private_message target message sender w =
        Ret tt (add_events
                  [EvSend t ("[PRIVATE] " ++ sender ++ ": " ++ message) false true;
                   EvSend s ("[ERROR] Could not deliver message to " ++ target)
                          ok true]
                  w).
Proof.
  intros w target message sender t s L Gt Gs F.
  assert (P : Dict.contains target (clients w) = true)
    by (rewrite DictFacts.contains_get, Gt; reflexivity).
  unfold private_message, with_lock. rewrite L.
  unfold bind at 1. unfold gets. cbn [clients set_lock]. rewrite P.
  unfold try_except, bind, client_of. cbn [clients set_lock]. rewrite Gt.
  unfold send.
  change (send_ok t (set_lock true w)) with (send_ok t w). rewrite F.
  cbn [any_exn clients log_event set_lock]. rewrite Gs.
  match goal with
  | |- context [EvSend s _ ?b _] => exists b; destruct b
  end;
  destruct w as [cl lk ac cc mc clo nf tr]; simpl in L; subst lk;
    unfold add_events, set_lock, log_event; simpl;
    now rewrite <- app_assoc.
Qed.

Lemma private_message_target_write_fails_witness :
  exists ok,
    private_message "B" "hi" "A" two_clients_B_dead =
      Ret tt (add_events
                [EvSend 2 ("[PRIVATE] " ++ "A" ++ ": " ++ "hi") false true;
                 EvSend 1 ("[ERROR] Could not deliver message to " ++ "B")
                        ok true]
                two_clients_B_dead).
Proof.
  apply (private_message_target_write_fails two_clients_B_dead "B" "hi" "A" 2 1);
    reflexivity.
Defined.

(** Every run of [private_message] on a free lock, case by case. *)
Lemma private_message_effects :
  forall (w : World) (target message sender : string),
    lock_held w = false ->
    exists evs,
      private_message target message sender w = Ret tt (add_events evs w) /\
      (length evs <= 3)%nat /\
      forallb is_write evs = true /\
      writes_locked true evs /\
      (forall e, In e evs ->
         Dict.get target (clients w) = Some (ev_socket e) \/
         Dict.get sender (clients w) = Some (ev_socket e)).
Proof.
  intros [cl lk ac cc mc clo nf tr] target message sender; simpl; intros ->.
  unfold private_message, with_lock, bind, gets, try_except, client_of, send,
    send_ok, ret, any_exn, add_events, set_lock, log_event; simpl.
  rewrite DictFacts.contains_get.
  destruct (Dict.get target cl) as [t|] eqn:Gt; simpl;
    repeat (case_if; simpl); try discriminate;
    (first [ exists (@nil event); split; [rewrite app_nil_r; reflexivity|]
           | eexists; split; [rewrite <- ?app_assoc; reflexivity|] ]);
    (split; [simpl; lia|]; split; [reflexivity|]; split;
     [ intros x m ok l I; simpl in I;
       repeat (destruct I as [I|I]; [congruence|]); destruct I
     | intros e I; simpl in I;
       repeat (destruct I as [I|I]; [subst e; simpl; auto|]); destruct I ]).
Qed.

(** X9: whoever the target and the sender are, registered or not,
    [private_message] returns on a free lock without raising; it changes
    nothing but the trace, to which it adds at most three writes, all made
    under the lock and all to the socket of the target or of the sender. *)
Theorem private_message_always_returns :
  forall (w : World) (target message sender : string),
    lock_held w = false ->
    exists evs,
      private_message target message sender w = Ret tt (add_events evs w) /\
      (length evs <= 3)%nat /\
      forallb is_write evs = true /\
      writes_locked true evs /\
      (forall e, In e evs ->
         Dict.get target (clients w) = Some (ev_socket e) \/
         Dict.get sender (clients w) = Some (ev_socket e)).
Proof.
  intros w target message sender L.
  exact (private_message_effects w target message sender L).
Qed.

Lemma private_message_always_returns_witness :
  exists evs,
    private_message "B" "hi" "ghost" two_clients_B_dead =
      Ret tt (add_events evs two_clients_B_dead) /\
    (length evs <= 3)%nat /\
    forallb is_write evs = true /\
    writes_locked true evs /\
    (forall e, In e evs ->
       Dict.get "B" (clients two_clients_B_dead) = Some (ev_socket e) \/
       Dict.get "ghost" (clients two_clients_B_dead) = Some (ev_socket e)).
Proof.
  apply (private_message_always_returns two_clients_B_dead "B" "hi" "ghost").
  reflexivity.
Defined.

(** ** More on broadcast *)

Lemma same_registry_refl w : same_registry w w.
Proof. now repeat split. Qed.

Lemma same_registry_trans w1 w2 w3 :
  same_registry w1 w2 -> same_registry w2 w3 -> same_registry w1 w3.
Proof.
  intros (A1 & A2 & A3 & A4) (B1 & B2 & B3 & B4).
  repeat split; congruence.
Qed.

(** X10: [broadcast] returns exactly when every write of its fan-out went
    through, and then the state differs by those writes only; when one
    failed it is left waiting for the lock it holds. *)
Theorem broadcast_returns_iff_all_delivered :
  forall (w : World) (message : string) (sender : option string),
    lock_held w = false ->
    let evs := emitted (broadcast message sender) w in
    (forallb ev_ok evs = true ->
       broadcast message sender w = Ret tt (add_events evs w)) /\
    (forallb ev_ok evs = false ->
       broadcast message sender w =
         Blocked OnLock (set_lock true (add_events evs w))).
Proof.
  intros w message sender L. cbv zeta.
  rewrite emitted_broadcast by exact L.
  rewrite broadcast_spec by exact L. cbv zeta.
  destruct (failed message (recipients sender (clients w)) (set_lock true w))
    as [|u r] eqn:E.
  - apply failed_nil_iff in E. rewrite E. split; [intros _|discriminate].
    destruct w as [cl lk ac cc mc clo nf tr]; simpl in L; subst lk.
    reflexivity.
  - assert (F : forallb ev_ok
                  (fan_out_events message (recipients sender (clients w))
                     (set_lock true w)) = false).
    { destruct (forallb ev_ok _) eqn:F; [|reflexivity].
      apply failed_nil_iff in F. congruence. }
    rewrite F. split; [discriminate|intros _]. reflexivity.
Qed.

Lemma broadcast_returns_iff_all_delivered_witness :
  let evs := emitted (broadcast "A: hello" (Some "A")) two_clients_B_dead in
  (forallb ev_ok evs = true ->
     broadcast "A: hello" (Some "A") two_clients_B_dead =
       Ret tt (add_events evs two_clients_B_dead)) /\
  (forallb ev_ok evs = false ->
     broadcast "A: hello" (Some "A") two_clients_B_dead =
       Blocked OnLock (set_lock true (add_events evs two_clients_B_dead))).
Proof.
  apply (broadcast_returns_iff_all_delivered
           two_clients_B_dead "A: hello" (Some "A")).
  reflexivity.
Defined.

(** What every method of the routing keeps. *)
Lemma settled_bind {A B} (m : M A) (k : A -> M B) w :
  settled w (m w) ->
  (forall a w', lock_held w' = false -> settled w' (k a w')) ->
  settled w (bind m k w).
Proof.
  intros (R & C & L) K. unfold bind.
  destruct (m w) as [a w'|e w'|[|] w']; simpl in *;
    try (split; [exact R | split; [exact C | exact L]]).
  destruct (K a w' L) as (R' & C' & L').
  split; [eapply same_registry_trans; eassumption|].
  split; [congruence | exact L'].
Qed.

Lemma settled_try {A} (body : M A) (handler : exn -> M A) w :
  settled w (body w) ->
  (forall e w', lock_held w' = false -> settled w' (handler e w')) ->
  settled w (try_except body any_exn handler w).
Proof.
  intros (R & C & L) K. unfold try_except.
  destruct (body w) as [a w'|e w'|[|] w']; simpl in *;
    try (split; [exact R | split; [exact C | exact L]]).
  destruct (K e w' L) as (R' & C' & L').
  split; [eapply same_registry_trans; eassumption|].
  split; [congruence | exact L'].
Qed.

Lemma settled_ret {A} (a : A) w : lock_held w = false -> settled w (ret a w).
Proof. intros L. split; [apply same_registry_refl|]. now split. Qed.

Lemma settled_raise {A} e w :
  lock_held w = false -> settled w (@raise A e w).
Proof. intros L. split; [apply same_registry_refl|]. now split. Qed.

Lemma broadcast_settled message sender w :
  lock_held w = false -> settled w (broadcast message sender w).
Proof.
  intros L. rewrite broadcast_spec by exact L. cbv zeta.
  destruct (failed _ _ _); simpl; repeat split.
Qed.

Lemma private_message_settled target message sender w :
  lock_held w = false -> settled w (private_message target message sender w).
Proof.
  intros L.
  destruct (private_message_effects w target message sender L)
    as (evs & E & _). rewrite E. simpl. repeat split. exact L.
Qed.

Lemma send_settled s text w :
  lock_held w = false -> settled w (send s text w).
Proof.
  intros L. unfold send. destruct (send_ok s w); simpl; repeat split; exact L.
Qed.

Lemma reply_settled username text w :
  lock_held w = false ->
  settled w ((c <- client_of username ;; send c text) w).
Proof.
  intros L. apply settled_bind.
  - unfold client_of. destruct (Dict.get username (clients w));
      simpl; repeat split; exact L.
  - intros c w' L'. now apply send_settled.
Qed.

Lemma bind_get_online_users {A} (k : list string -> M A) w :
  lock_held w = false ->
  (users <- get_online_users ;; k users) w = k (Dict.keys (clients w)) w.
Proof.
  intros L. unfold bind. now rewrite get_online_users_spec by exact L.
Qed.

Lemma route_message_settled username message w :
  lock_held w = false -> settled w (route_message username message w).
Proof.
  intros L. unfold route_message.
  destruct (PyStr.startswith "/private" message).
  - destruct (Nat.leb 3 (length (PyStr.split_space 2 message))).
    + destruct (PyStr.split_space 2 message) as [|a [|b [|c [|d l]]]];
        try (now apply settled_raise).
      now apply private_message_settled.
    + now apply reply_settled.
  - destruct (String.eqb message "/users").
    + rewrite !bind_get_online_users by exact L.
      now apply reply_settled.
    + destruct (String.eqb message "/help").
      * now apply reply_settled.
      * now apply broadcast_settled.
Qed.

(** X11: [route_message] never changes [clients], the three counters or
    the set of closed sockets, whatever the line, the sender and the state
    of the lock. *)
Theorem route_message_never_changes_the_registry :
  forall (w : World) (username message : string),
    let w' := world_of (route_message username message w) in
    clients w' = clients w /\
    active_connections w' = active_connections w /\
    connection_count w' = connection_count w /\
    max_concurrent w' = max_concurrent w /\
    closed w' = closed w.
Proof.
  intros w username message. cbv zeta.
  destruct (lock_held w) eqn:L.
  - (* the lock is held: whatever needs it waits, the rest only writes *)
    unfold route_message.
    assert (R : forall text,
               let r := (c <- client_of username ;; send c text) w in
               clients (world_of r) = clients w /\
               active_connections (world_of r) = active_connections w /\
               connection_count (world_of r) = connection_count w /\
               max_concurrent (world_of r) = max_concurrent w /\
               closed (world_of r) = closed w).
    { intros text. cbv zeta. unfold bind, client_of.
      destruct (Dict.get username (clients w)) as [s|]; [|now repeat split].
      unfold send. destruct (send_ok s w); simpl; now repeat split. }
    destruct (PyStr.startswith "/private" message).
    + destruct (Nat.leb 3 (length (PyStr.split_space 2 message))).
      * destruct (PyStr.split_space 2 message) as [|a [|b [|c [|d l]]]];
          try (simpl; now repeat split).
        unfold private_message, with_lock. rewrite L. now repeat split.
      * apply R.
    + destruct (String.eqb message "/users").
      * unfold bind, get_online_users, with_lock. rewrite L.
        now repeat split.
      * destruct (String.eqb message "/help"); [apply R|].
        rewrite broadcast_locked by exact L. now repeat split.
  - destruct (route_message_settled username message w L)
      as ((A & B & C & D) & E & _). now repeat split.
Qed.

(** ** Parsing a private line *)

Lemma break_space_at_first_space a b :
  no_space a = true ->
  PyStr.break_space (a ++ String " "%char b) = Some (a, b).
Proof.
  induction a as [|c r IH]; simpl; [reflexivity|].
  destruct (Ascii.eqb c " "%char); simpl; [discriminate|].
  intros H. now rewrite IH.
Qed.

Lemma break_space_none a : no_space a = true -> PyStr.break_space a = None.
Proof.
  induction a as [|c r IH]; simpl; [reflexivity|].
  destruct (Ascii.eqb c " "%char); simpl; [discriminate|].
  intros H. now rewrite IH.
Qed.

(** X12: the line ["/private <target> <content>"], for a target without a
    space, is the direct message of [content] to [target]: the content is
    the whole rest of the line, further spaces included. *)
Theorem private_line_is_parsed :
  forall (w : World) (username target content : string),
    no_space target = true ->
    route_message username ("/private " ++ target ++ " " ++ content) w =
      private_message target content username w.
Proof.
  intros w username target content N. unfold route_message.
  assert (P : PyStr.startswith "/private"
                ("/private " ++ target ++ " " ++ content)%string = true)
    by reflexivity.
  rewrite P.
  assert (S : PyStr.split_space 2 ("/private " ++ target ++ " " ++ content)
              = ["/private"; target; content]).
  { change ("/private " ++ target ++ " " ++ content)%string
      with ("/private" ++ String " "%char (target ++ String " "%char content))%string.
    cbn [PyStr.split_space].
    rewrite (break_space_at_first_space "/private") by reflexivity.
    now rewrite (break_space_at_first_space target) by exact N. }
  rewrite S. reflexivity.
Qed.

Lemma private_line_is_parsed_witness :
  route_message "A" ("/private " ++ "B" ++ " " ++ "see you at  five") two_clients =
    private_message "B" "see you at  five" "A" two_clients.
Proof.
  apply (private_line_is_parsed two_clients "A" "B" "see you at  five").
  reflexivity.
Defined.

(** X13: ["/private <target>"] with nothing after the target is answered
    by the usage error, sent to the sender alone. *)
Theorem private_line_without_message_is_usage_error :
  forall (w : World) (username target : string) (s : socket),
    lock_held w = false ->
    Dict.get username (clients w) = Some s ->
    no_space target = true ->
    route_message username ("/private " ++ target) w =
      reply_only s usage_error w.
Proof.
  intros w username target s L G N. unfold route_message.
  assert (P : PyStr.startswith "/private" ("/private " ++ target)%string = true)
    by reflexivity.
  rewrite P.
  assert (S : PyStr.split_space 2 ("/private " ++ target)
              = ["/private"; target]).
  { change ("/private " ++ target)%string
      with ("/private" ++ String " "%char target)%string.
    cbn [PyStr.split_space].
    rewrite (break_space_at_first_space "/private") by reflexivity.
    now rewrite break_space_none by exact N. }
  rewrite S. simpl. now apply reply_to_sender.
Qed.

Lemma private_line_without_message_is_usage_error_witness :
  route_message "A" ("/private " ++ "B") two_clients =
    reply_only 1 usage_error two_clients.
Proof.
  apply (private_line_without_message_is_usage_error two_clients "A" "B" 1);
    reflexivity.
Defined.

(** X14: for a sender that is not in [clients], the commands that reply
    to the sender (["/users"], ["/help"], a ["/private"] line short of three
    tokens) raise [KeyError] with nothing written. *)
Theorem commands_of_unregistered_sender_raise :
  forall (w : World) (username message : string),
    lock_held w = false ->
    Dict.get username (clients w) = None ->
    message = "/users" \/ message = "/help" \/
      (PyStr.startswith "/private" message = true /\
       (length (PyStr.split_space 2 message) < 3)%nat) ->
    route_message username message w = Raise (KeyError username) w.
Proof.
  intros w username message L G [->|[->|[P Hlen]]]; unfold route_message.
  - change (PyStr.startswith "/private" "/users") with false.
    rewrite String.eqb_refl. rewrite bind_get_online_users by exact L.
    unfold bind, client_of. now rewrite G.
  - change (PyStr.startswith "/private" "/help") with false.
    change ("/help" =? "/users") with false. rewrite String.eqb_refl.
    unfold bind, client_of. now rewrite G.
  - rewrite P. apply Nat.leb_gt in Hlen. rewrite Hlen.
    unfold bind, client_of. now rewrite G.
Qed.

Lemma commands_of_unregistered_sender_raise_witness :
  route_message "ghost" "/users" two_clients = Raise (KeyError "ghost") two_clients.
Proof.
  apply (commands_of_unregistered_sender_raise two_clients "ghost" "/users");
    [reflexivity | reflexivity | left; reflexivity].
Defined.

(** ** Shutdown *)

Lemma with_sockets_nil w : with_sockets [] [] w = w.
Proof. destruct w; unfold with_sockets; simpl. now rewrite app_nil_r. Qed.

Lemma shutdown_client_spec s w :
  shutdown_client s w =
    Ret tt (if send_ok s w
            then with_sockets [s]
                   [EvSend s shutting_down true (lock_held w); EvClose s] w
            else with_sockets []
                   [EvSend s shutting_down false (lock_held w)] w).
Proof.
  unfold shutdown_client, try_except, bind, send, close, ret.
  destruct (send_ok s w); cbn [any_exn];
    unfold with_sockets, log_event, mark_closed; simpl;
    now rewrite <- ?app_assoc.
Qed.

Lemma with_sockets_app cl1 evs1 cl2 evs2 w :
  with_sockets cl2 evs2 (with_sockets cl1 evs1 w) =
  with_sockets (cl2 ++ cl1) (evs1 ++ evs2) w.
Proof. unfold with_sockets; simpl. now rewrite !app_assoc. Qed.

Lemma shutdown_sweep (items : list (string * socket)) :
  forall w,
    exists cl evs,
      for_each items (fun item => shutdown_client (snd item)) w
      = Ret tt (with_sockets cl evs w) /\
      (forall u s, In (u, s) items ->
                   exists ok, In (EvSend s shutting_down ok (lock_held w)) evs) /\
      (forall s, In (EvClose s) evs <->
                 In (EvSend s shutting_down true (lock_held w)) evs) /\
      (forall s, In s cl <-> In (EvClose s) evs).
Proof.
  induction items as [|[u s] r IH]; intros w.
  - exists [], []. rewrite with_sockets_nil. simpl.
    repeat split; intros; tauto.
  - cbn [for_each snd]. unfold bind. rewrite shutdown_client_spec.
    destruct (send_ok s w) eqn:S.
    + set (w1 := with_sockets [s]
                   [EvSend s shutting_down true (lock_held w); EvClose s] w).
      destruct (IH w1) as (cl & evs & E & A & B & C).
      change (lock_held w1) with (lock_held w) in A, B.
      exists (cl ++ [s]),
        ([EvSend s shutting_down true (lock_held w); EvClose s] ++ evs).
      split; [rewrite E; unfold w1; now rewrite with_sockets_app|].
      split; [|split].
      * intros u' s' [I|I].
        -- injection I as <- <-. exists true. now left.
        -- destruct (A u' s' I) as [ok H]. exists ok. now right; right.
      * intros s'. simpl. rewrite B. split.
        -- intros [H|[H|H]]; [discriminate | injection H as <-; now left | now right; right].
        -- intros [H|[H|H]]; [injection H as <-; now right; left | discriminate | now right; right].
      * intros s'. rewrite in_app_iff, C. simpl. split.
        -- intros [H|[H|[]]]; [now right; right | subst; now right; left].
        -- intros [H|[H|H]]; [discriminate | injection H as <-; right; now left | now left].
    + set (w1 := with_sockets []
                   [EvSend s shutting_down false (lock_held w)] w).
      destruct (IH w1) as (cl & evs & E & A & B & C).
      change (lock_held w1) with (lock_held w) in A, B.
      exists cl, ([EvSend s shutting_down false (lock_held w)] ++ evs).
      split; [rewrite E; unfold w1; now rewrite with_sockets_app, app_nil_r|].
      split; [|split].
      * intros u' s' [I|I].
        -- injection I as <- <-. exists false. now left.
        -- destruct (A u' s' I) as [ok H]. exists ok. now right.
      * intros s'. simpl. rewrite B. split.
        -- intros [H|H]; [discriminate | now right].
        -- intros [H|H]; [discriminate | now right].
      * intros s'. rewrite C. simpl. split.
        -- intros H; now right.
        -- intros [H|H]; [discriminate | exact H].
Qed.

Lemma unlock_with_sockets cl evs w :
  lock_held w = false ->
  set_lock false (with_sockets cl evs (set_lock true w)) = with_sockets cl evs w.
Proof.
  destruct w as [cls lk ac cc mc clo nf tr]; simpl; intros ->. reflexivity.
Qed.

Lemma close_with_sockets srv cl evs w :
  close srv (with_sockets cl evs w) =
    Ret tt (with_sockets (srv :: cl) (evs ++ [EvClose srv]) w).
Proof.
  unfold close, with_sockets, log_event, mark_closed; simpl.
  now rewrite <- app_assoc.
Qed.

(** X15: on a free lock [shutdown] returns; it removes no entry and
    touches no counter, attempts the shutdown notice on the socket of every
    registered name, closes exactly the sockets on which the notice went
    through (a socket whose write failed is left open), and closes the
    listening socket last. *)
Theorem shutdown_closes_notified_sockets :
  forall (w : World) (server_socket : socket),
    lock_held w = false ->
    exists cl evs,
      shutdown server_socket w =
        Ret tt (with_sockets (server_socket :: cl)
                             (evs ++ [EvClose server_socket]) w) /\
      (forall u s, In (u, s) (clients w) ->
                   exists ok, In (EvSend s shutting_down ok true) evs) /\
      (forall s, In (EvClose s) evs <->
                 In (EvSend s shutting_down true true) evs) /\
      (forall s, In s cl <-> In (EvClose s) evs).
Proof.
  intros w srv L. unfold shutdown.
  unfold bind at 1. unfold with_lock. rewrite L.
  unfold bind at 1. unfold gets. unfold Dict.items.
  change (clients (set_lock true w)) with (clients w).
  destruct (shutdown_sweep (clients w) (set_lock true w))
    as (cl & evs & E & A & B & C).
  rewrite E. exists cl, evs.
  rewrite unlock_with_sockets by exact L.
  split; [apply close_with_sockets|].
  split; [exact A | split; [exact B | exact C]].
Qed.

Lemma shutdown_closes_notified_sockets_witness :
  exists cl evs,
    shutdown 0 two_clients =
      Ret tt (with_sockets (0 :: cl) (evs ++ [EvClose 0]) two_clients) /\
    (forall u s, In (u, s) (clients two_clients) ->
                 exists ok, In (EvSend s shutting_down ok true) evs) /\
    (forall s, In (EvClose s) evs <->
               In (EvSend s shutting_down true true) evs) /\
    (forall s, In s cl <-> In (EvClose s) evs).
Proof.
  apply (shutdown_closes_notified_sockets two_clients 0). reflexivity.
Defined.

(** ** A stuck lock *)

(** X16: after a broadcast in which a write failed, every method that
    takes [clients_lock] blocks for ever and changes nothing: [add_client],
    [remove_client], [broadcast], [private_message], [get_online_users] and
    [shutdown]. *)
Theorem failed_broadcast_wedges_the_server :
  forall (w : World) (message : string) (sender : option string),
    lock_held w = false ->
    forallb ev_ok (emitted (broadcast message sender) w) = false ->
    let w' := world_of (broadcast message sender w) in
    (forall u s, add_client u s w' = Blocked OnLock w') /\
    (forall u notify, remove_client u notify w' = Blocked OnLock w') /\
    (forall m s, broadcast m s w' = Blocked OnLock w') /\
    (forall t m s, private_message t m s w' = Blocked OnLock w') /\
    get_online_users w' = Blocked OnLock w' /\
    (forall srv, shutdown srv w' = Blocked OnLock w').
Proof.
  intros w message sender L F. cbv zeta.
  destruct (broadcast_failure_blocks message sender w L F)
    as (w' & E & H & _).
  rewrite E. cbn [world_of].
  split; [intros; now apply add_client_locked|].
  split; [intros; now apply remove_client_locked|].
  split; [intros; now apply broadcast_locked|].
  split; [intros; unfold private_message, with_lock; now rewrite H|].
  split; [unfold get_online_users, with_lock; now rewrite H|].
  intros srv. unfold shutdown, bind, with_lock. now rewrite H.
Qed.

Lemma failed_broadcast_wedges_the_server_witness :
  let w' := world_of (broadcast "A: hello" (Some "A") two_clients_B_dead) in
  (forall u s, add_client u s w' = Blocked OnLock w') /\
  (forall u notify, remove_client u notify w' = Blocked OnLock w') /\
  (forall m s, broadcast m s w' = Blocked OnLock w') /\
  (forall t m s, private_message t m s w' = Blocked OnLock w') /\
  get_online_users w' = Blocked OnLock w' /\
  (forall srv, shutdown srv w' = Blocked OnLock w').
Proof.
  apply (failed_broadcast_wedges_the_server
           two_clients_B_dead "A: hello" (Some "A")); reflexivity.
Defined.

(** ** The acceptor *)

(** X17: the accept loop hands a connection to a handler exactly when
    [active_connections < MAX_CLIENTS], touching nothing; otherwise it writes
    the "server is full" line and closes the socket, or leaves it open when
    that write failed.  The test reads the counter without the lock. *)
Theorem start_turn_enforces_capacity :
  forall (w : World) (client_socket : socket),
    ((active_connections w < MAX_CLIENTS)%Z ->
       start_turn client_socket w = Ret true w) /\
    ((MAX_CLIENTS <= active_connections w)%Z ->
       start_turn client_socket w =
         Ret false
           (if send_ok client_socket w
            then with_sockets [client_socket]
                   [EvSend client_socket server_full true (lock_held w);
                    EvClose client_socket] w
            else with_sockets []
                   [EvSend client_socket server_full false (lock_held w)] w)).
Proof.
  intros w c. unfold start_turn, try_except, bind, gets.
  split; intros H.
  - destruct (Z.geb_spec (active_connections w) MAX_CLIENTS); [lia|].
    reflexivity.
  - destruct (Z.geb_spec (active_connections w) MAX_CLIENTS); [|lia].
    unfold send, close, ret.
    destruct (send_ok c w); cbn [any_exn];
      unfold with_sockets, log_event, mark_closed; simpl;
      now rewrite <- ?app_assoc.
Qed.

(** ** Registering many names *)

Lemma run_ops_app ops1 ops2 w :
  run_ops (ops1 ++ ops2) w = run_ops ops2 (run_ops ops1 w).
Proof. unfold run_ops. apply fold_left_app. Qed.

(** X18: the registry itself has no capacity: registering any list of
    distinct new names succeeds for every one of them, in order, and adds
    the length of the list to [active_connections] and
    [connection_count]. *)
Theorem registry_has_no_capacity :
  forall (regs : list (string * socket)) (w : World),
    lock_held w = false ->
    NoDup (map fst regs) ->
    (forall u, In u (map fst regs) -> Dict.contains u (clients w) = false) ->
    let w' := run_ops (registrations regs) w in
    clients w' = clients w ++ regs /\
    active_connections w' = (active_connections w + Z.of_nat (length regs))%Z /\
    connection_count w' = (connection_count w + Z.of_nat (length regs))%Z.
Proof.
  induction regs as [|[u s] r IH]; intros w L N F; cbv zeta.
  - simpl. rewrite app_nil_r. split; [reflexivity|]. lia.
  - unfold registrations, run_ops. cbn [map fold_left apply_op fst snd].
    fold (registrations r).
    fold (run_ops (registrations r) (world_of (add_client u s w))).
    rewrite add_client_spec by exact L.
    rewrite (F u) by (now left). cbn [world_of].
    inversion N as [|? ? Hn Hr]; subst.
    destruct (IH (registered u s w)) as (A & B & C).
    + exact L.
    + exact Hr.
    + intros v Hv. cbn [clients registered].
      destruct (Dict.contains v (clients w ++ [(u, s)])) eqn:E; [|reflexivity].
      apply DictFacts.contains_In in E. unfold Dict.keys in E.
      rewrite map_app, in_app_iff in E. destruct E as [E|[E|[]]].
      * apply DictFacts.contains_In in E. rewrite F in E by (now right).
        discriminate.
      * simpl in E. subst v. contradiction.
    + rewrite A, B, C. cbn [clients active_connections connection_count registered].
      rewrite <- app_assoc. split; [reflexivity|].
      cbn [length]. lia.
Qed.

Lemma registry_has_no_capacity_witness :
  let w' := run_ops (registrations [("C", 3); ("D", 4)]) two_clients in
  clients w' = clients two_clients ++ [("C", 3); ("D", 4)] /\
  active_connections w' = (active_connections two_clients + Z.of_nat 2)%Z /\
  connection_count w' = (connection_count two_clients + Z.of_nat 2)%Z.
Proof.
  apply (registry_has_no_capacity [("C", 3); ("D", 4)] two_clients).
  - reflexivity.
  - simpl. repeat constructor; simpl; intuition discriminate.
  - intros u [<-|[<-|[]]]; reflexivity.
Defined.

(** ** The read loop *)

Lemma loop_turn_settled username client_socket r w :
  lock_held w = false ->
  settled w (loop_turn username client_socket r w) /\
  no_raise (loop_turn username client_socket r w).
Proof.
  intros L. split.
  - unfold loop_turn. apply settled_try.
    + apply settled_bind.
      * destruct r; simpl; repeat split; exact L.
      * intros raw w' L'. cbv zeta.
        destruct (negb (PyStr.truthy (PyStr.strip raw)));
          [now apply settled_ret|].
        apply settled_bind; [now apply route_message_settled|].
        intros _ w'' L''. now apply settled_ret.
    + intros e w' L'.
      destruct e; try (now apply settled_ret).
      apply settled_try.
      * apply settled_bind; [now apply send_settled|].
        intros _ w'' L''. now apply settled_ret.
      * intros e' w'' L''. now apply settled_ret.
  - unfold loop_turn, try_except.
    destruct ((raw <- recv r;;
               (let msg := PyStr.strip raw in
                if negb (PyStr.truthy msg)
                then ret false
                else route_message username msg;; ret true)) w)
      as [b w'|e w'|y w']; simpl; try exact I.
    destruct e; simpl; try exact I.
    unfold bind, send, ret. destruct (send_ok client_socket w'); exact I.
Qed.

Lemma message_loop_settled username client_socket inputs :
  forall w,
    lock_held w = false ->
    settled w (message_loop username client_socket inputs w) /\
    no_raise (message_loop username client_socket inputs w).
Proof.
  induction inputs as [|r rest IH]; intros w L.
  - simpl. repeat split. exact L.
  - cbn [message_loop]. destruct (loop_turn_settled username client_socket r w L)
      as [S N].
    split.
    + apply settled_bind; [exact S|].
      intros [|] w' L'; [now apply IH | now apply settled_ret].
    + unfold bind.
      destruct (loop_turn username client_socket r w) as [[|] w'|e w'|y w'];
        simpl in *; try exact I; try contradiction.
      destruct S as (_ & _ & L'). now apply IH.
Qed.

(** X19: whatever the peer sends, the read loop raises nothing (every
    exception of a turn ends the loop instead) and leaves [clients], the
    counters and the closed sockets as they were. *)
Theorem read_loop_keeps_registry_and_never_raises :
  forall (w : World) (username : string) (client_socket : socket)
         (inputs : list recv_result),
    lock_held w = false ->
    let r := message_loop username client_socket inputs w in
    raised r = false /\
    same_registry w (world_of r) /\
    closed (world_of r) = closed w.
Proof.
  intros w username c inputs L. cbv zeta.
  destruct (message_loop_settled username c inputs w L) as [(R & C & _) N].
  split; [|now split].
  destruct (message_loop username c inputs w); simpl in *;
    [reflexivity | contradiction | reflexivity].
Qed.

Lemma read_loop_keeps_registry_and_never_raises_witness :
  let r := message_loop "A" 1 [RecvData "hello"; RecvTimeout; RecvData "/bogus";
                               RecvReset] two_clients in
  raised r = false /\
  same_registry two_clients (world_of r) /\
  closed (world_of r) = closed two_clients.
Proof.
  apply (read_loop_keeps_registry_and_never_raises two_clients "A" 1).
  reflexivity.
Defined.

(** ** The handler *)

(** X20: when the first read fails or gives a blank name, the handler
    writes nothing, closes the socket and returns, the registry untouched;
    it takes no lock, so this holds also while the lock is held. *)
Theorem handshake_without_name_only_closes :
  forall (w : World) (client_socket : socket) (handshake : recv_result)
         (inputs : list recv_result),
    match handshake with
    | RecvData raw => PyStr.strip raw = ""
    | _ => True
    end ->
    handle_client client_socket handshake inputs w =
      Ret tt (with_sockets [client_socket] [EvClose client_socket] w).
Proof.
  intros w c handshake inputs H.
  unfold handle_client, try_finally, try_except, bind, recv, ret, raise.
  destruct handshake as [raw| | |]; [rewrite H|..]; reflexivity.
Qed.

Lemma handshake_without_name_only_closes_witness :
  handle_client 3 (RecvData "   ") [RecvData "hello"] two_clients =
    Ret tt (with_sockets [3] [EvClose 3] two_clients).
Proof.
  apply (handshake_without_name_only_closes two_clients 3 (RecvData "   ")).
  reflexivity.
Defined.




(** ** On a healthy network *)

Lemma healthy_fan_out message recs :
  forall w,
    healthy w ->
    fan_out_events message recs w =
      map (fun p => EvSend (snd p) message true (lock_held w)) recs /\
    failed message recs w = [].
Proof.
  induction recs as [|[u s] r IH]; intros w H; simpl; [now split|].
  rewrite (healthy_send_ok s w H).
  destruct (IH (log_event (EvSend s message true (lock_held w)) w))
    as [E F]; [now apply healthy_log|].
  rewrite E, F. now split.
Qed.

Lemma healthy_broadcast message sender w :
  lock_held w = false ->
  healthy w ->
  broadcast message sender w =
    Ret tt (add_events
              (map (fun p => EvSend (snd p) message true true)
                   (recipients sender (clients w))) w).
Proof.
  intros L H. rewrite broadcast_spec by exact L. cbv zeta.
  destruct (healthy_fan_out message (recipients sender (clients w))
              (set_lock true w)) as [E F]; [now apply healthy_set_lock|].
  rewrite E, F. cbn [lock_held set_lock].
  destruct w as [cl lk ac cc mc clo nf tr]; simpl in L; subst lk. reflexivity.
Qed.



(** X22: on a network without failures an ordinary line returns after
    one write of ["<sender>: <line>"] to every other registered client, in
    the order of registration. *)
Theorem group_line_is_delivered :
  forall (w : World) (username message : string),
    lock_held w = false ->
    healthy w ->
    PyStr.startswith "/private" message = false ->
    message <> "/users" ->
    message <> "/help" ->
    route_message username message w =
      Ret tt (add_events
                (map (fun p => EvSend (snd p) (username ++ ": " ++ message) true true)
                     (recipients (Some username) (clients w))) w).
Proof.
  intros w username message L H P nu nh. unfold route_message. rewrite P.
  destruct (String.eqb_spec message "/users"); [contradiction|].
  destruct (String.eqb_spec message "/help"); [contradiction|].
  now apply healthy_broadcast.
Qed.

Lemma group_line_is_delivered_witness :
  route_message "A" "hello" two_clients =
    Ret tt (add_events
              (map (fun p => EvSend (snd p) ("A" ++ ": " ++ "hello") true true)
                   (recipients (Some "A") (clients two_clients))) two_clients).
Proof.
  apply (group_line_is_delivered two_clients "A" "hello");
    [reflexivity | exact healthy_two_clients | reflexivity
     | discriminate | discriminate].
Defined.






(** ** More on the confidentiality helper *)

Section WireFormat.

Variable utf8_encode : string -> bytes.
Variable utf8_decode : bytes -> option string.
Variable encrypt_and_digest : bytes -> bytes -> bytes -> bytes * bytes.
Variable decrypt_and_verify : bytes -> bytes -> bytes -> bytes -> option bytes.

Hypothesis utf8_roundtrip : forall m, utf8_decode (utf8_encode m) = Some m.

Hypothesis tag_length :
  forall key nonce plaintext,
    length (snd (encrypt_and_digest key nonce plaintext)) = 16%nat.

(** EAX is a stream mode: the ciphertext is as long as the plaintext. *)
Hypothesis ciphertext_length :
  forall key nonce plaintext,
    length (fst (encrypt_and_digest key nonce plaintext)) = length plaintext.

Hypothesis eax_correct :
  forall key nonce plaintext,
    decrypt_and_verify key nonce
      (fst (encrypt_and_digest key nonce plaintext))
      (snd (encrypt_and_digest key nonce plaintext)) = Some plaintext.

(** X25: the output of [encrypt_message] starts with the nonce and is 32
    bytes longer than the UTF-8 encoding of the message. *)
Theorem encrypted_message_layout :
  forall (m : string) (nonce : bytes),
    length nonce = 16%nat ->
    let data := encrypt_message utf8_encode encrypt_and_digest nonce m in
    firstn 16 data = nonce /\
    length data = (32 + length (utf8_encode m))%nat.
Proof.
  intros m nonce Hn. cbv zeta. unfold encrypt_message.
  assert (Ht := tag_length KEY nonce (utf8_encode m)).
  assert (Hc := ciphertext_length KEY nonce (utf8_encode m)).
  destruct (encrypt_and_digest KEY nonce (utf8_encode m)) as [ciphertext tag].
  simpl in Ht, Hc.
  destruct (message_layout nonce tag ciphertext Hn Ht) as [E1 _].
  split; [exact E1|].
  rewrite !length_app. lia.
Qed.

(** X26: the bytes [encrypt_message] returns determine the nonce and the
    message: two calls with equal outputs had equal nonces and equal
    messages. *)
Theorem encrypted_message_determines_nonce_and_text :
  forall (m1 m2 : string) (nonce1 nonce2 : bytes),
    length nonce1 = 16%nat ->
    length nonce2 = 16%nat ->
    encrypt_message utf8_encode encrypt_and_digest nonce1 m1 =
    encrypt_message utf8_encode encrypt_and_digest nonce2 m2 ->
    nonce1 = nonce2 /\ m1 = m2.
Proof.
  intros m1 m2 n1 n2 H1 H2. unfold encrypt_message.
  assert (T1 := tag_length KEY n1 (utf8_encode m1)).
  assert (T2 := tag_length KEY n2 (utf8_encode m2)).
  assert (C1 := eax_correct KEY n1 (utf8_encode m1)).
  assert (C2 := eax_correct KEY n2 (utf8_encode m2)).
  destruct (encrypt_and_digest KEY n1 (utf8_encode m1)) as [c1 t1].
  destruct (encrypt_and_digest KEY n2 (utf8_encode m2)) as [c2 t2].
  simpl in *. intros E.
  destruct (message_layout n1 t1 c1 H1 T1) as (A1 & B1 & D1).
  destruct (message_layout n2 t2 c2 H2 T2) as (A2 & B2 & D2).
  cbv zeta in *. rewrite E in A1, B1, D1.
  assert (n1 = n2) by congruence. subst n2.
  assert (t1 = t2) by congruence. subst t2.
  assert (c1 = c2) by congruence. subst c2.
  split; [reflexivity|].
  assert (Some (utf8_encode m1) = Some (utf8_encode m2)) as P by congruence.
  injection P as P.
  assert (Some m1 = Some m2) as Q
    by (rewrite <- (utf8_roundtrip m1), <- (utf8_roundtrip m2), P; reflexivity).
  now injection Q.
Qed.

End WireFormat.

Lemma encrypted_message_layout_witness :
  let data := encrypt_message list_byte_of_string toy_encrypt
                (repeat Byte.x2a 16) "hello" in
  firstn 16 data = repeat Byte.x2a 16 /\
  length data = (32 + length (list_byte_of_string "hello"))%nat.
Proof.
  apply (encrypted_message_layout list_byte_of_string toy_encrypt);
    reflexivity.
Defined.

Lemma toy_utf8_roundtrip m : toy_decode (list_byte_of_string m) = Some m.
Proof. unfold toy_decode. now rewrite string_of_list_byte_of_string. Defined.

Lemma encrypted_message_determines_nonce_and_text_witness :
  repeat Byte.x2a 16 = repeat Byte.x2a 16 /\ "hello" = "hello".
Proof.
  apply (encrypted_message_determines_nonce_and_text
           list_byte_of_string toy_decode toy_encrypt toy_decrypt
           toy_utf8_roundtrip);
    reflexivity.
Defined.
